(** * EBSDashboard: the dashboard generator scripts, embedded and verified

    The repository holds two near-duplicate Python scripts,
    [dashboardcreation_EBS.py] and [dashboardwithoutanimation.py].  Each one
    lists the EBS volumes attached to an EC2 instance, resolves a drive name
    per volume (from its [Name] tag or from the operator), builds two
    CloudWatch widgets per volume and uploads them as one dashboard.

    The embedding is shallow.  Python dictionaries with a fixed set of keys
    become records, JSON-like literals become values of [pyval], the remote
    clients are an interface ([Externals]) over an abstract world, and the
    console is a list of lines still to be typed together with a trace of
    what the script did. *)

From Stdlib Require Import ZArith Ascii String DecimalString.
From stdpp Require Import strings gmap.

Local Open Scope Z_scope.
#[local] Set Warnings "-register-all".

(** ** Python values and builtins *)

Module Py.

(** The JSON-like values the scripts build: [None], [bool], [int], [str],
    [list] and [dict] with string keys.  A dict literal keeps its keys in
    the order they are written, so it is an association list. *)
Inductive pyval : Type :=
| PNone
| PBool (b : bool)
| PInt (n : Z)
| PStr (s : string)
| PList (items : list pyval)
| PDict (entries : list (string * pyval)).

(** The exceptions that can reach the handlers of the scripts.  All of them
    derive from [Exception]; [ClientError] is the one botocore class the
    scripts name. *)
Inductive exn : Type :=
| ClientError (message : string)
| KeyError (key : string)
| IndexError
| EOFError
| OtherException (message : string).

(** [d[key]] on a dict literal. *)
Fixpoint dict_get (key : string) (entries : list (string * pyval)) : option pyval :=
  match entries with
  | [] => None
  | (k, v) :: rest => if String.eqb k key then Some v else dict_get key rest
  end.

(** [v[key]]: subscript of a value by a string key. *)
Definition item (key : string) (v : pyval) : option pyval :=
  match v with
  | PDict entries => dict_get key entries
  | _ => None
  end.

(** [v[i]]: subscript of a list value by a non-negative index. *)
Definition index (i : nat) (v : pyval) : option pyval :=
  match v with
  | PList items => items !! i
  | _ => None
  end.

(** A [str] is a sequence of code points; the model keeps the code points
    below 256, one per [ascii].  [str.isspace] holds there for the
    characters 9-13, 28-32, 133 and 160. *)
Definition isspace (c : ascii) : bool :=
  let n := N_of_ascii c in
  (((9 <=? n) && (n <=? 13)) || ((28 <=? n) && (n <=? 32))
   || (n =? 133) || (n =? 160))%N.

Fixpoint lstrip (s : string) : string :=
  match s with
  | EmptyString => EmptyString
  | String c rest => if isspace c then lstrip rest else s
  end.

Fixpoint rstrip (s : string) : string :=
  match s with
  | EmptyString => EmptyString
  | String c rest =>
      match rstrip rest with
      | EmptyString => if isspace c then EmptyString else String c EmptyString
      | kept => String c kept
      end
  end.

(** [s.strip()] *)
Definition strip (s : string) : string := rstrip (lstrip s).

(** [s.startswith(p)] *)
Definition startswith (p s : string) : bool := String.prefix p s.

(** [len(s)] *)
Definition len (s : string) : Z := Z.of_nat (String.length s).

(** Truth value of a string: [''] is false. *)
Definition truthy (s : string) : bool :=
  match s with
  | EmptyString => false
  | String _ _ => true
  end.

End Py.

Import Py.

(** ** The shape of an EC2 [describe_volumes] response *)

Module EC2.

Record attachment : Type := { Device : string }.

Record tag : Type := { Key : string; Value : string }.

(** One element of [response['Volumes']].  [Tags], [Iops] and [Throughput]
    are the keys the scripts read with [dict.get], so they may be absent;
    the other keys are read with a plain subscript. *)
Record volume : Type := {
  VolumeId : string;
  Attachments : list attachment;
  Size : Z;
  Tags : option (list tag);
  Iops : option Z;
  Throughput : option Z
}.

Record response : Type := { Volumes : list volume }.

(** The two ways the scripts call [describe_volumes]:
    [Filters=[{'Name': 'attachment.instance-id', 'Values': [instance_id]}]]
    and [VolumeIds=[volume_id]]. *)
Inductive request : Type :=
| ByAttachedInstance (instance_id : string)
| ByVolumeIds (volume_ids : list string).

End EC2.

(** ** The dictionaries the scripts pass around *)

(** The result of [get_volume_details]. *)
Record volume_details : Type := {
  name_tag : option string;
  iops : Z;
  throughput : Z
}.

(** One element of the list that [get_volume_info] returns. *)
Record volume_info : Type := {
  VolumeId : string;
  DeviceName : string;
  Size : Z;
  NameTag : option string;
  Iops : Z;
  Throughput : Z
}.

(** The generator object: the script keeps the region; its two clients live
    in the world. *)
Record EBSDashboardGenerator : Type := { region : string }.

(** ** Console, remote calls and the monad of the scripts *)

(** What a [print] says.  The constructors keep the values interpolated into
    the text; colour codes, glyphs and progress bars are not modelled.
    [VolumeDetails] stands for the four lines that [get_drive_names] prints
    in a row for a volume (heading, identifier, device, size). *)
Inductive message : Type :=
| FetchingVolumes
| ErrorGettingVolumeInformation (e : exn)
| CollectingDriveNames
| Rule
| VolumeDetails (volume_id device_name : string) (size : Z)
| UsingNameFromTag (name_tag : string)
| DriveNameCannotBeEmpty
| NoVolumesFound (instance_id : string)
| FoundVolumes (count : nat) (instance_id : string)
| GeneratingWidgets
| CreatingDashboard
| DashboardCreated (dashboard_name : string)
| AwsApiError (e : exn)
| Error (e : exn)
| InvalidInstanceId.

Inductive prompt : Type :=
| EnterDriveName
| EnterInstanceId.

(** What a run does, in order.  A remote call is recorded with what it
    returned or raised. *)
Inductive event : Type :=
| Printed (m : message)
| Entered (p : prompt) (line : string)
| EndOfInput (p : prompt)
| DescribeVolumes (request : EC2.request) (outcome : exn + EC2.response)
| PutDashboard (DashboardName DashboardBody : string) (outcome : exn + unit).

(** The collaborators that are not code of the repository: the two boto3
    clients, which act on a world [W], and [json.dumps]. *)
Class Externals (W : Type) : Type := {
  ec2_describe_volumes : EC2.request -> W -> (exn + EC2.response) * W;
  cloudwatch_put_dashboard : string -> string -> W -> (exn + unit) * W;
  json_dumps : pyval -> string
}.

Section Runtime.

Context {W : Type}.

(** [stdin] holds the lines the operator will still type, [trace] what has
    happened so far. *)
Record state : Type := {
  world : W;
  stdin : list string;
  trace : list event
}.

Definition M (A : Type) : Type := state -> (exn + A) * state.

Definition ret {A : Type} (a : A) : M A := fun s => (inr a, s).

Definition bind {A B : Type} (m : M A) (k : A -> M B) : M B :=
  fun s =>
    match m s with
    | (inr a, s') => k a s'
    | (inl e, s') => (inl e, s')
    end.

Definition raise {A : Type} (e : exn) : M A := fun s => (inl e, s).

(** [try: body / except Exception as e: handler e] *)
Definition try_except {A : Type} (body : M A) (handler : exn -> M A) : M A :=
  fun s =>
    match body s with
    | (inr a, s') => (inr a, s')
    | (inl e, s') => handler e s'
    end.

Definition log (e : event) : M unit :=
  fun s => (inr tt, {| world := world s; stdin := stdin s; trace := trace s ++ [e] |}).

Definition print (m : message) : M unit := log (Printed m).

(** A loop around [input()] is a function of the lines still to come: it
    gives its result, the lines it left and the events it caused.
    [input()] at the end of the input raises [EOFError]. *)
Definition dialogue (A : Type) : Type :=
  list string -> (exn + A) * list string * list event.

Definition console {A : Type} (d : dialogue A) : M A :=
  fun s =>
    let '(r, rest, evs) := d (stdin s) in
    (r, {| world := world s; stdin := rest; trace := trace s ++ evs |}).

(** A [for] loop that updates the local variable [acc]. *)
Fixpoint for_each {A S : Type} (xs : list A) (body : S -> A -> M S) (acc : S) : M S :=
  match xs with
  | [] => ret acc
  | x :: rest => bind (body acc x) (for_each rest body)
  end.

Context `{!Externals W}.

Definition describe_volumes (request : EC2.request) : M EC2.response :=
  fun s =>
    let '(r, w) := ec2_describe_volumes request (world s) in
    (r, {| world := w; stdin := stdin s; trace := trace s ++ [DescribeVolumes request r] |}).

Definition put_dashboard (DashboardName DashboardBody : string) : M unit :=
  fun s =>
    let '(r, w) := cloudwatch_put_dashboard DashboardName DashboardBody (world s) in
    (r, {| world := w; stdin := stdin s;
           trace := trace s ++ [PutDashboard DashboardName DashboardBody r] |}).

End Runtime.

Arguments state : clear implicits.
Arguments M : clear implicits.

Declare Scope script_scope.
Delimit Scope script_scope with script.
Notation "x <- c1 ;; c2" := (bind c1 (fun x => c2))
  (at level 100, c1 at next level, right associativity) : script_scope.
Notation "c1 ;; c2" := (bind c1 (fun _ => c2))
  (at level 100, right associativity) : script_scope.
Local Open Scope script_scope.

(** ** [dashboardcreation_EBS.py] *)

Module DashboardCreationEBS.

Definition generate_iops_widget
    (volume_id drive_name region : string) (iops : Z) : pyval :=
  PDict [
    ("metrics", PList [
      PList [PDict [("expression", PStr "(m1+m2)/(60-m3)");
                    ("label", PStr "Expression1");
                    ("id", PStr "e1");
                    ("region", PStr region)]];
      PList [PStr "AWS/EBS"; PStr "VolumeReadOps"; PStr "VolumeId"; PStr volume_id;
             PDict [("id", PStr "m1"); ("visible", PBool false); ("region", PStr region)]];
      PList [PStr "."; PStr "VolumeWriteOps"; PStr "."; PStr ".";
             PDict [("id", PStr "m2"); ("visible", PBool false); ("region", PStr region)]];
      PList [PStr "."; PStr "VolumeIdleTime"; PStr "."; PStr ".";
             PDict [("id", PStr "m3"); ("visible", PBool false); ("region", PStr region)]]
    ]);
    ("view", PStr "timeSeries");
    ("stacked", PBool false);
    ("region", PStr region);
    ("stat", PStr "Sum");
    ("period", PInt 60);
    ("title", PStr ("IOPS - " +:+ volume_id +:+ "_" +:+ drive_name));
    ("annotations", PDict [
      ("horizontal", PList [
        PDict [("value", PInt iops); ("fill", PStr "below")]
      ])
    ])
  ].

Definition generate_throughput_widget
    (volume_id drive_name region : string) (throughput : Z) : pyval :=
  let throughput_bytes := throughput * 1024 * 1024 in
  PDict [
    ("sparkline", PBool true);
    ("metrics", PList [
      PList [PDict [("expression", PStr "(m1+m2)/(60-m3)");
                    ("label", PStr "Expression1");
                    ("id", PStr "e1");
                    ("period", PInt 60);
                    ("stat", PStr "Sum");
                    ("region", PStr region)]];
      PList [PStr "AWS/EBS"; PStr "VolumeReadBytes"; PStr "VolumeId"; PStr volume_id;
             PDict [("id", PStr "m1"); ("visible", PBool false); ("region", PStr region)]];
      PList [PStr "."; PStr "VolumeWriteBytes"; PStr "."; PStr ".";
             PDict [("id", PStr "m2"); ("visible", PBool false); ("region", PStr region)]];
      PList [PStr "."; PStr "VolumeIdleTime"; PStr "."; PStr ".";
             PDict [("id", PStr "m3"); ("visible", PBool false); ("region", PStr region)]]
    ]);
    ("view", PStr "timeSeries");
    ("stacked", PBool false);
    ("region", PStr region);
    ("stat", PStr "Sum");
    ("period", PInt 60);
    ("yAxis", PDict [("left", PDict [("min", PInt 0)])]);
    ("liveData", PBool false);
    ("singleValueFullPrecision", PBool false);
    ("setPeriodToTimeRange", PBool true);
    ("title", PStr ("Throughput - " +:+ volume_id +:+ "_" +:+ drive_name));
    ("annotations", PDict [
      ("horizontal", PList [
        PDict [("value", PInt throughput_bytes); ("fill", PStr "below")]
      ])
    ])
  ].

(** The loop of [get_drive_names] that asks until the stripped answer is
    not empty. *)
Fixpoint ask_drive_name (lines : list string) : (exn + string) * list string * list event :=
  match lines with
  | [] => (inl EOFError, [], [EndOfInput EnterDriveName])
  | line :: rest =>
      let drive_name := strip line in
      if truthy drive_name then
        (inr drive_name, rest, [Entered EnterDriveName line])
      else
        let '(r, rest', evs) := ask_drive_name rest in
        (r, rest', Entered EnterDriveName line :: Printed DriveNameCannotBeEmpty :: evs)
  end.

(** The loop of [get_user_inputs] that asks for the instance ID (the
    second of its three loops; the region and dashboard name loops are not
    embedded). *)
Fixpoint ask_instance_id (lines : list string) : (exn + string) * list string * list event :=
  match lines with
  | [] => (inl EOFError, [], [EndOfInput EnterInstanceId])
  | line :: rest =>
      let instance_id := strip line in
      if startswith "i-" instance_id && (2 <? len instance_id) then
        (inr instance_id, rest, [Entered EnterInstanceId line])
      else
        let '(r, rest', evs) := ask_instance_id rest in
        (r, rest', Entered EnterInstanceId line :: Printed InvalidInstanceId :: evs)
  end.

Section Script.

Context {W : Type} `{!Externals W}.

Definition get_volume_details (volume_id : string) : M W volume_details :=
  response <- describe_volumes (EC2.ByVolumeIds [volume_id]) ;;
  match EC2.Volumes response with
  | volume :: _ =>
      let name_tag :=
        EC2.Value <$>
          List.find (fun tag => String.eqb (EC2.Key tag) "Name")
                    (default [] (EC2.Tags volume)) in
      ret {| name_tag := name_tag;
             iops := default 3000 (EC2.Iops volume);
             throughput := default 125 (EC2.Throughput volume) |}
  | [] => ret {| name_tag := None; iops := 3000; throughput := 125 |}
  end.

(** The body of the [for] loop of [get_volume_info]. *)
Definition append_volume_info (volumes : list volume_info) (volume : EC2.volume)
    : M W (list volume_info) :=
  device_name <-
    match EC2.Attachments volume with
    | first :: _ => ret (EC2.Device first)
    | [] => raise IndexError
    end ;;
  volume_details <- get_volume_details (EC2.VolumeId volume) ;;
  ret (volumes ++ [{| VolumeId := EC2.VolumeId volume;
                      DeviceName := device_name;
                      Size := EC2.Size volume;
                      NameTag := name_tag volume_details;
                      Iops := iops volume_details;
                      Throughput := throughput volume_details |}]).

Definition get_volume_info (instance_id : string) : M W (list volume_info) :=
  try_except
    (print FetchingVolumes ;;
     response <- describe_volumes (EC2.ByAttachedInstance instance_id) ;;
     for_each (EC2.Volumes response) append_volume_info [])
    (fun e =>
       print (ErrorGettingVolumeInformation e) ;;
       ret []).

(** The body of the [for] loop of [get_drive_names].  [if name_tag:] is
    false for [None] and for the empty string. *)
Definition resolve_drive_name (drive_names : gmap string string) (volume : volume_info)
    : M W (gmap string string) :=
  let volume_id := VolumeId volume in
  let size := Size volume in
  let device_name := DeviceName volume in
  let name_tag := NameTag volume in
  let ask : M W (gmap string string) :=
    drive_name <- console ask_drive_name ;;
    ret (<[volume_id := drive_name]> drive_names) in
  print (VolumeDetails volume_id device_name size) ;;
  match name_tag with
  | Some tag =>
      if truthy tag then
        print (UsingNameFromTag tag) ;;
        ret (<[volume_id := tag]> drive_names)
      else ask
  | None => ask
  end.

Definition get_drive_names (volumes : list volume_info) : M W (gmap string string) :=
  print CollectingDriveNames ;;
  print Rule ;;
  for_each volumes resolve_drive_name ∅.

Definition metric_widget (properties : pyval) : pyval :=
  PDict [("type", PStr "metric");
         ("width", PInt 12);
         ("height", PInt 6);
         ("properties", properties)].

(** The body of the [for] loop of [create_dashboard]. *)
Definition extend_widgets (self : EBSDashboardGenerator)
    (drive_names : gmap string string)
    (widgets : list pyval) (volume : volume_info) : M W (list pyval) :=
  let volume_id := VolumeId volume in
  drive_name <-
    match drive_names !! volume_id with
    | Some name => ret name
    | None => raise (KeyError volume_id)
    end ;;
  ret (widgets ++ [
    metric_widget
      (generate_iops_widget volume_id drive_name (region self) (Iops volume));
    metric_widget
      (generate_throughput_widget volume_id drive_name (region self)
                                  (Throughput volume))
  ]).

Definition create_dashboard (self : EBSDashboardGenerator)
    (instance_id dashboard_name : string) : M W unit :=
  try_except
    (volumes <- get_volume_info instance_id ;;
     match volumes with
     | [] => print (NoVolumesFound instance_id)
     | _ :: _ =>
         print (FoundVolumes (length volumes) instance_id) ;;
         drive_names <- get_drive_names volumes ;;
         print GeneratingWidgets ;;
         widgets <- for_each volumes (extend_widgets self drive_names) [] ;;
         let dashboard_body := PDict [("widgets", PList widgets)] in
         print CreatingDashboard ;;
         put_dashboard dashboard_name (json_dumps dashboard_body) ;;
         print (DashboardCreated dashboard_name)
     end)
    (fun e =>
       match e with
       | ClientError _ => print (AwsApiError e)
       | _ => print (Error e)
       end).

End Script.

End DashboardCreationEBS.

(** ** [dashboardwithoutanimation.py] *)

Module DashboardWithoutAnimation.

Definition generate_iops_widget
    (volume_id drive_name region : string) (iops : Z) : pyval :=
  PDict [
    ("metrics", PList [
      PList [PDict [("expression", PStr "(m1+m2)/(60-m3)");
                    ("label", PStr "Expression1");
                    ("id", PStr "e1");
                    ("region", PStr region)]];
      PList [PStr "AWS/EBS"; PStr "VolumeReadOps"; PStr "VolumeId"; PStr volume_id;
             PDict [("id", PStr "m1"); ("visible", PBool false); ("region", PStr region)]];
      PList [PStr "."; PStr "VolumeWriteOps"; PStr "."; PStr ".";
             PDict [("id", PStr "m2"); ("visible", PBool false); ("region", PStr region)]];
      PList [PStr "."; PStr "VolumeIdleTime"; PStr "."; PStr ".";
             PDict [("id", PStr "m3"); ("visible", PBool false); ("region", PStr region)]]
    ]);
    ("view", PStr "timeSeries");
    ("stacked", PBool false);
    ("region", PStr region);
    ("stat", PStr "Sum");
    ("period", PInt 60);
    ("title", PStr ("IOPS - " +:+ volume_id +:+ "_" +:+ drive_name));
    ("annotations", PDict [
      ("horizontal", PList [
        PDict [("value", PInt iops); ("fill", PStr "below")]
      ])
    ])
  ].

Definition generate_throughput_widget
    (volume_id drive_name region : string) (throughput : Z) : pyval :=
  let throughput_bytes := throughput * 1024 * 1024 in
  PDict [
    ("sparkline", PBool true);
    ("metrics", PList [
      PList [PDict [("expression", PStr "(m1+m2)/(60-m3)");
                    ("label", PStr "Expression1");
                    ("id", PStr "e1");
                    ("period", PInt 60);
                    ("stat", PStr "Sum");
                    ("region", PStr region)]];
      PList [PStr "AWS/EBS"; PStr "VolumeReadBytes"; PStr "VolumeId"; PStr volume_id;
             PDict [("id", PStr "m1"); ("visible", PBool false); ("region", PStr region)]];
      PList [PStr "."; PStr "VolumeWriteBytes"; PStr "."; PStr ".";
             PDict [("id", PStr "m2"); ("visible", PBool false); ("region", PStr region)]];
      PList [PStr "."; PStr "VolumeIdleTime"; PStr "."; PStr ".";
             PDict [("id", PStr "m3"); ("visible", PBool false); ("region", PStr region)]]
    ]);
    ("view", PStr "timeSeries");
    ("stacked", PBool false);
    ("region", PStr region);
    ("stat", PStr "Sum");
    ("period", PInt 60);
    ("yAxis", PDict [("left", PDict [("min", PInt 0)])]);
    ("liveData", PBool false);
    ("singleValueFullPrecision", PBool false);
    ("setPeriodToTimeRange", PBool true);
    ("title", PStr ("Throughput - " +:+ volume_id +:+ "_" +:+ drive_name));
    ("annotations", PDict [
      ("horizontal", PList [
        PDict [("value", PInt throughput_bytes); ("fill", PStr "below")]
      ])
    ])
  ].

Section Script.

Context {W : Type} `{!Externals W}.

Definition get_volume_details (volume_id : string) : M W volume_details :=
  response <- describe_volumes (EC2.ByVolumeIds [volume_id]) ;;
  match EC2.Volumes response with
  | volume :: _ =>
      let name_tag :=
        EC2.Value <$>
          List.find (fun tag => String.eqb (EC2.Key tag) "Name")
                    (default [] (EC2.Tags volume)) in
      ret {| name_tag := name_tag;
             iops := default 3000 (EC2.Iops volume);
             throughput := default 125 (EC2.Throughput volume) |}
  | [] => ret {| name_tag := None; iops := 3000; throughput := 125 |}
  end.

(** The body of the [for] loop of [get_volume_info]. *)
Definition append_volume_info (volumes : list volume_info) (volume : EC2.volume)
    : M W (list volume_info) :=
  device_name <-
    match EC2.Attachments volume with
    | first :: _ => ret (EC2.Device first)
    | [] => raise IndexError
    end ;;
  volume_details <- get_volume_details (EC2.VolumeId volume) ;;
  ret (volumes ++ [{| VolumeId := EC2.VolumeId volume;
                      DeviceName := device_name;
                      Size := EC2.Size volume;
                      NameTag := name_tag volume_details;
                      Iops := iops volume_details;
                      Throughput := throughput volume_details |}]).

Definition get_volume_info (instance_id : string) : M W (list volume_info) :=
  try_except
    (print FetchingVolumes ;;
     response <- describe_volumes (EC2.ByAttachedInstance instance_id) ;;
     for_each (EC2.Volumes response) append_volume_info [])
    (fun e =>
       print (ErrorGettingVolumeInformation e) ;;
       ret []).

End Script.

End DashboardWithoutAnimation.

(** ** The interactive front end of [dashboardcreation_EBS.py] *)

(** The shape of a [describe_regions] response. *)
Module EC2Regions.

Record entry : Type := { RegionName : string }.

Record response : Type := { Regions : list entry }.

End EC2Regions.

(** What the front end prints.  [Welcome] stands for the three lines of
    the banner, [Summary] for the four lines of the summary of inputs. *)
Inductive ui_message : Type :=
| Welcome
| FetchingRegions
| ErrorFetchingRegions (e : exn)
| AvailableRegions
| RegionOption (number : Z) (region : string)
| InvalidSelection
| EnterValidNumber
| DashboardNameCannotBeEmpty
| Summary (instance_id region dashboard_name : string)
| OperationCancelled
| InitializingClients
| UncaughtError (e : exn).

Inductive ui_prompt : Type :=
| SelectRegionNumber
| EnterDashboardName
| ProceedWithSettings.

(** What a run of the front end does, in order.  [Core] wraps what the
    part of the script embedded above does. *)
Inductive ui_event : Type :=
| Shown (m : ui_message)
| Typed (p : ui_prompt) (line : string)
| InputEnded (p : ui_prompt)
| DescribeRegions (outcome : exn + EC2Regions.response)
| ClientsCreated (region : string) (outcome : exn + unit)
| Core (e : event).

(** The further collaborators of the front end: the region listing (the
    client built for [us-east-1] and its [describe_regions] call), the
    construction of the two clients in [__init__], and the builtin [int]
    on a string, [None] standing for [ValueError]. *)
Class FrontEnd (W : Type) : Type := {
  ec2_describe_regions : W -> (exn + EC2Regions.response) * W;
  boto3_clients : string -> W -> (exn + unit) * W;
  int : string -> option Z
}.

(** [s.lower()] on code points below 256: the letters A-Z and the
    capital letters of Latin-1 (192-222 but 215) move up by 32. *)
Definition lower_char (c : ascii) : ascii :=
  let n := N_of_ascii c in
  if (((65 <=? n) && (n <=? 90))
      || ((192 <=? n) && (n <=? 222) && negb (n =? 215)))%N
  then ascii_of_N (n + 32) else c.

Fixpoint lower (s : string) : string :=
  match s with
  | EmptyString => EmptyString
  | String c rest => String (lower_char c) (lower rest)
  end.

Section FrontEndRuntime.

Context {W : Type}.

Record session : Type := {
  ui_world : W;
  ui_stdin : list string;
  ui_trace : list ui_event
}.

Definition UI (A : Type) : Type := session -> (exn + A) * session.

Definition ui_ret {A : Type} (a : A) : UI A := fun s => (inr a, s).

Definition ui_bind {A B : Type} (m : UI A) (k : A -> UI B) : UI B :=
  fun s =>
    match m s with
    | (inr a, s') => k a s'
    | (inl e, s') => (inl e, s')
    end.

Definition ui_try_except {A : Type} (body : UI A) (handler : exn -> UI A) : UI A :=
  fun s =>
    match body s with
    | (inr a, s') => (inr a, s')
    | (inl e, s') => handler e s'
    end.

Definition ui_print (m : ui_message) : UI unit :=
  fun s => (inr tt, {| ui_world := ui_world s; ui_stdin := ui_stdin s;
                       ui_trace := ui_trace s ++ [Shown m] |}).

(** One [input()]. *)
Definition ui_input (p : ui_prompt) : UI string :=
  fun s =>
    match ui_stdin s with
    | [] => (inl EOFError, {| ui_world := ui_world s; ui_stdin := [];
                              ui_trace := ui_trace s ++ [InputEnded p] |})
    | line :: rest => (inr line, {| ui_world := ui_world s; ui_stdin := rest;
                                    ui_trace := ui_trace s ++ [Typed p line] |})
    end.

(** A loop around [input()] of the front end. *)
Definition ui_console {A : Type}
    (d : list string -> (exn + A) * list string * list ui_event) : UI A :=
  fun s =>
    let '(r, rest, evs) := d (ui_stdin s) in
    (r, {| ui_world := ui_world s; ui_stdin := rest; ui_trace := ui_trace s ++ evs |}).

(** A computation of the part embedded above, run from here: it starts on
    the world and input of the session and its events join the trace. *)
Definition core {A : Type} (m : M W A) : UI A :=
  fun s =>
    let '(r, s') := m {| world := ui_world s; stdin := ui_stdin s; trace := [] |} in
    (r, {| ui_world := world s'; ui_stdin := stdin s';
           ui_trace := ui_trace s ++ List.map Core (trace s') |}).

Context `{!FrontEnd W}.

Definition describe_regions : UI EC2Regions.response :=
  fun s =>
    let '(r, w) := ec2_describe_regions (ui_world s) in
    (r, {| ui_world := w; ui_stdin := ui_stdin s;
           ui_trace := ui_trace s ++ [DescribeRegions r] |}).

Definition create_clients (region : string) : UI unit :=
  fun s =>
    let '(r, w) := boto3_clients region (ui_world s) in
    (r, {| ui_world := w; ui_stdin := ui_stdin s;
           ui_trace := ui_trace s ++ [ClientsCreated region r] |}).

End FrontEndRuntime.

Arguments session : clear implicits.
Arguments UI : clear implicits.

Declare Scope ui_scope.
Delimit Scope ui_scope with ui.
Notation "x <- c1 ;; c2" := (ui_bind c1 (fun x => c2))
  (at level 100, c1 at next level, right associativity) : ui_scope.
Notation "c1 ;; c2" := (ui_bind c1 (fun _ => c2))
  (at level 100, right associativity) : ui_scope.

Module DashboardCreationEBS_Main.

Import DashboardCreationEBS.

Local Open Scope ui_scope.

Section Script.

Context {W : Type} `{!Externals W} `{!FrontEnd W}.

(** [EBSDashboardGenerator.__init__] *)
Definition init (region : string) : UI W EBSDashboardGenerator :=
  ui_print InitializingClients ;;
  create_clients region ;;
  ui_ret {| region := region |}.

Definition fallback_regions : list string :=
  ["us-east-1"; "us-east-2"; "us-west-1"; "us-west-2"; "eu-west-1"].

Definition get_aws_regions : UI W (list string) :=
  ui_try_except
    (ui_print FetchingRegions ;;
     response <- describe_regions ;;
     ui_ret (List.map EC2Regions.RegionName (EC2Regions.Regions response)))
    (fun e =>
       ui_print (ErrorFetchingRegions e) ;;
       ui_ret fallback_regions).

(** [for i, region in enumerate(regions, 1): print(...)] *)
Fixpoint show_regions (i : Z) (regions : list string) : UI W unit :=
  match regions with
  | [] => ui_ret tt
  | region :: rest => ui_print (RegionOption i region) ;; show_regions (i + 1) rest
  end.

(** The first loop of [get_user_inputs].  [except ValueError] catches what
    [int] raises; [EOFError] from [input()] is not caught here. *)
Fixpoint ask_region (regions : list string) (lines : list string)
    : (exn + string) * list string * list ui_event :=
  match lines with
  | [] => (inl EOFError, [], [InputEnded SelectRegionNumber])
  | line :: rest =>
      match int line with
      | Some number =>
          let region_index := number - 1 in
          if (0 <=? region_index) && (region_index <? Z.of_nat (length regions)) then
            match regions !! Z.to_nat region_index with
            | Some selected_region =>
                (inr selected_region, rest, [Typed SelectRegionNumber line])
            | None => (inl IndexError, rest, [Typed SelectRegionNumber line])
            end
          else
            let '(r, rest', evs) := ask_region regions rest in
            (r, rest', Typed SelectRegionNumber line :: Shown InvalidSelection :: evs)
      | None =>
          let '(r, rest', evs) := ask_region regions rest in
          (r, rest', Typed SelectRegionNumber line :: Shown EnterValidNumber :: evs)
      end
  end.

(** The third loop of [get_user_inputs]. *)
Fixpoint ask_dashboard_name (lines : list string)
    : (exn + string) * list string * list ui_event :=
  match lines with
  | [] => (inl EOFError, [], [InputEnded EnterDashboardName])
  | line :: rest =>
      let dashboard_name := strip line in
      if truthy dashboard_name then
        (inr dashboard_name, rest, [Typed EnterDashboardName line])
      else
        let '(r, rest', evs) := ask_dashboard_name rest in
        (r, rest', Typed EnterDashboardName line :: Shown DashboardNameCannotBeEmpty :: evs)
  end.

Definition get_user_inputs : UI W (string * string * string) :=
  ui_print Welcome ;;
  regions <- get_aws_regions ;;
  ui_print AvailableRegions ;;
  show_regions 1 regions ;;
  selected_region <- ui_console (ask_region regions) ;;
  instance_id <- core (console ask_instance_id) ;;
  dashboard_name <- ui_console ask_dashboard_name ;;
  ui_ret (instance_id, selected_region, dashboard_name).

(** [main]; its handler for [KeyboardInterrupt] is not modelled, as no
    interrupt is. *)
Definition main : UI W unit :=
  ui_try_except
    (inputs <- get_user_inputs ;;
     let '(instance_id, region, dashboard_name) := inputs in
     ui_print (Summary instance_id region dashboard_name) ;;
     answer <- ui_input ProceedWithSettings ;;
     let confirm := lower (strip answer) in
     if negb (String.eqb confirm "y") then
       ui_print OperationCancelled
     else
       generator <- init region ;;
       core (create_dashboard generator instance_id dashboard_name))
    (fun e => ui_print (UncaughtError e)).

End Script.

End DashboardCreationEBS_Main.

(** ** A simulated cloud, to run the scripts on concrete inputs *)

Module SimulatedCloud.

(** [attached] is what the volume listing returns, [unreachable] the
    volume identifiers whose detail call fails, [dashboards] what has
    been stored. *)
Record cloud : Type := {
  attached : list EC2.volume;
  unreachable : list string;
  dashboards : list (string * string)
}.

Definition mentions (ids : list string) (volume_id : string) : bool :=
  existsb (String.eqb volume_id) ids.

Definition describe (request : EC2.request) (c : cloud) : (exn + EC2.response) * cloud :=
  match request with
  | EC2.ByAttachedInstance _ => (inr {| EC2.Volumes := attached c |}, c)
  | EC2.ByVolumeIds ids =>
      if existsb (mentions (unreachable c)) ids then
        (inl (ClientError "RequestLimitExceeded"), c)
      else
        (inr {| EC2.Volumes :=
                  List.filter (fun v => mentions ids (EC2.VolumeId v)) (attached c) |}, c)
  end.

(** Create or replace. *)
Definition put (name body : string) (c : cloud) : (exn + unit) * cloud :=
  (inr tt,
   {| attached := attached c;
      unreachable := unreachable c;
      dashboards :=
        (name, body)
          :: List.filter (fun d => negb (String.eqb (fst d) name)) (dashboards c) |}).

(** [json.dumps] with its default options, on code points below 256. *)
Definition quote : string := String (ascii_of_N 34) EmptyString.

Definition hex_digit (n : N) : ascii :=
  nth (N.to_nat n) (list_ascii_of_string "0123456789abcdef") "0"%char.

Definition escape_char (c : ascii) : string :=
  let n := N_of_ascii c in
  if (n =? 34)%N then "\" +:+ quote
  else if (n =? 92)%N then "\\"
  else if (n =? 10)%N then "\n"
  else if (n =? 13)%N then "\r"
  else if (n =? 9)%N then "\t"
  else if (n =? 8)%N then "\b"
  else if (n =? 12)%N then "\f"
  else if ((n <? 32) || (126 <? n))%N then
    "\u00" +:+ String (hex_digit (n / 16)) (String (hex_digit (n mod 16)) EmptyString)
  else String c EmptyString.

Fixpoint escape (s : string) : string :=
  match s with
  | EmptyString => EmptyString
  | String c rest => escape_char c +:+ escape rest
  end.

Definition encode_str (s : string) : string := quote +:+ escape s +:+ quote.

Fixpoint join (sep : string) (parts : list string) : string :=
  match parts with
  | [] => EmptyString
  | [p] => p
  | p :: rest => p +:+ sep +:+ join sep rest
  end.

Fixpoint dumps (v : pyval) : string :=
  match v with
  | PNone => "null"
  | PBool true => "true"
  | PBool false => "false"
  | PInt n => NilZero.string_of_int (Z.to_int n)
  | PStr s => encode_str s
  | PList items => "[" +:+ join ", " (List.map dumps items) +:+ "]"
  | PDict entries =>
      "{" +:+ join ", " (List.map (fun kv => encode_str (fst kv) +:+ ": " +:+ dumps (snd kv))
                                  entries) +:+ "}"
  end.

#[global] Instance externals : Externals cloud := {
  ec2_describe_volumes := describe;
  cloudwatch_put_dashboard := put;
  json_dumps := dumps
}.

Definition start (c : cloud) (lines : list string) : state cloud :=
  {| world := c; stdin := lines; trace := [] |}.

(** The volume of the scenario: [vol-1], 100 GB, no tag, no provisioning
    fields. *)
Definition vol1 : EC2.volume :=
  {| EC2.VolumeId := "vol-1";
     EC2.Attachments := [{| EC2.Device := "/dev/sdf" |}];
     EC2.Size := 100;
     EC2.Tags := None;
     EC2.Iops := None;
     EC2.Throughput := None |}.

(** A tagged volume with explicit provisioning. *)
Definition vol2 : EC2.volume :=
  {| EC2.VolumeId := "vol-2";
     EC2.Attachments := [{| EC2.Device := "/dev/sdg" |}];
     EC2.Size := 500;
     EC2.Tags := Some [{| EC2.Key := "Env"; EC2.Value := "prod" |};
                       {| EC2.Key := "Name"; EC2.Value := "SYSDB" |}];
     EC2.Iops := Some 16000;
     EC2.Throughput := Some 1000 |}.

(** A volume whose [Name] tag is the empty string. *)
Definition vol3 : EC2.volume :=
  {| EC2.VolumeId := "vol-3";
     EC2.Attachments := [{| EC2.Device := "/dev/sdh" |}];
     EC2.Size := 8;
     EC2.Tags := Some [{| EC2.Key := "Name"; EC2.Value := "" |}];
     EC2.Iops := Some 3000;
     EC2.Throughput := Some 125 |}.

(** A volume record without attachments. *)
Definition detached : EC2.volume :=
  {| EC2.VolumeId := "vol-9";
     EC2.Attachments := [];
     EC2.Size := 1;
     EC2.Tags := None;
     EC2.Iops := None;
     EC2.Throughput := None |}.

Definition cloud_of (volumes : list EC2.volume) : cloud :=
  {| attached := volumes; unreachable := []; dashboards := [] |}.

End SimulatedCloud.

(** ** A simulated front end, for the same purpose *)

Module SimulatedFrontEnd.

(** The region listing answers with two regions, unless the world marks
    [describe_regions] as unreachable. *)
Definition regions (c : SimulatedCloud.cloud)
    : (exn + EC2Regions.response) * SimulatedCloud.cloud :=
  if SimulatedCloud.mentions (SimulatedCloud.unreachable c) "describe_regions" then
    (inl (ClientError "AuthFailure"), c)
  else
    (inr {| EC2Regions.Regions := [{| EC2Regions.RegionName := "eu-west-1" |};
                                   {| EC2Regions.RegionName := "us-east-1" |}] |}, c).

Definition clients (region : string) (c : SimulatedCloud.cloud)
    : (exn + unit) * SimulatedCloud.cloud := (inr tt, c).

(** [int] on decimal text: surrounding whitespace, one optional sign,
    digits, single underscores between digits. *)
Definition digit_value (c : ascii) : option Z :=
  let n := N_of_ascii c in
  if ((48 <=? n) && (n <=? 57))%N then Some (Z.of_N (n - 48)) else None.

Fixpoint digits_value (s : string) (acc : Z) (after_digit : bool) : option Z :=
  match s with
  | EmptyString => if after_digit then Some acc else None
  | String c rest =>
      match digit_value c with
      | Some d => digits_value rest (10 * acc + d) true
      | None =>
          if (N_of_ascii c =? 95)%N && after_digit
          then digits_value rest acc false else None
      end
  end.

Definition parse_int (s : string) : option Z :=
  match strip s with
  | String "+" body => digits_value body 0 false
  | String "-" body => Z.opp <$> digits_value body 0 false
  | body => digits_value body 0 false
  end.

#[global] Instance front_end : FrontEnd SimulatedCloud.cloud := {
  ec2_describe_regions := regions;
  boto3_clients := clients;
  int := parse_int
}.

Definition start (c : SimulatedCloud.cloud) (lines : list string)
    : session SimulatedCloud.cloud :=
  {| ui_world := c; ui_stdin := lines; ui_trace := [] |}.

End SimulatedFrontEnd.

(** ** Reading a trace *)

(** The events a run added to the trace it started from. *)
Definition events_since {W : Type} (before after : state W) : list event :=
  drop (length (trace before)) (trace after).

(** The dashboard writes in a list of events: name and document. *)
Fixpoint puts (evs : list event) : list (string * string) :=
  match evs with
  | [] => []
  | PutDashboard name body _ :: rest => (name, body) :: puts rest
  | _ :: rest => puts rest
  end.

(** The remote calls that raised. *)
Definition raised (ev : event) : bool :=
  match ev with
  | DescribeVolumes _ (inl _) => true
  | PutDashboard _ _ (inl _) => true
  | _ => false
  end.

(** [get_drive_names] prints the details of a volume and then handles it, so
    the drive names entered for a volume are the ones between its details
    and the next details. *)
Fixpoint entered_until_next_volume (evs : list event) : list string :=
  match evs with
  | [] => []
  | Printed (VolumeDetails _ _ _) :: _ => []
  | Entered EnterDriveName line :: rest => line :: entered_until_next_volume rest
  | _ :: rest => entered_until_next_volume rest
  end.

Fixpoint entered_per_volume (evs : list event) : list (list string) :=
  match evs with
  | [] => []
  | Printed (VolumeDetails _ _ _) :: rest =>
      entered_until_next_volume rest :: entered_per_volume rest
  | _ :: rest => entered_per_volume rest
  end.

(** The horizontal annotations of a widget descriptor,
    [w['annotations']['horizontal']], the value of the first one and the
    title of the widget. *)
Definition horizontal_annotations (w : pyval) : option pyval :=
  match item "annotations" w with
  | Some annotations => item "horizontal" annotations
  | None => None
  end.

Definition annotation_value (w : pyval) : option pyval :=
  match horizontal_annotations w with
  | Some horizontal =>
      match index 0 horizontal with
      | Some first => item "value" first
      | None => None
      end
  | None => None
  end.

Definition title (w : pyval) : option pyval := item "title" w.

(** The instance ID rule in the words of the specification: the literal
    prefix [i-] and a length greater than 2. *)
Definition valid_instance_id (s : string) : Prop :=
  (exists rest, s = "i-" +:+ rest) /\ (2 < String.length s)%nat.

(** The drive name rule for an untagged volume: [answers] are blank lines
    followed by one line that is not blank after stripping, and [name] is
    that line stripped. *)
Definition first_answer (answers : list string) (name : string) : Prop :=
  exists (blanks : list string) (line : string),
    answers = blanks ++ [line] /\
    Forall (fun l => strip l = "") blanks /\
    strip line <> "" /\
    name = strip line.

(** What the operator sees while the lines [rejected] are refused as
    instance IDs: each line, then the format message. *)
Definition refusals (rejected : list string) : list event :=
  flat_map (fun l => [Entered EnterInstanceId l; Printed InvalidInstanceId]) rejected.

(** Two ways to bound what a computation adds to the trace: whatever its
    outcome, or when it returns normally. *)
Definition always_logs {W A : Type} (P : event -> Prop) (m : M W A) : Prop :=
  forall s, exists evs, trace (snd (m s)) = trace s ++ evs /\ Forall P evs.

Definition success_logs {W A : Type} (P : event -> Prop) (m : M W A) : Prop :=
  forall s a s', m s = (inr a, s') ->
    exists evs, trace s' = trace s ++ evs /\ Forall P evs.

(** Events that are not a dashboard write; events that are not a failed
    remote call. *)
Definition not_a_put (ev : event) : Prop := puts [ev] = [].

Definition not_raised (ev : event) : Prop := raised ev = false.

(** ** Further observations, for the properties beyond the claims *)

(** The requests of the [describe_volumes] calls in a list of events. *)
Fixpoint requests (evs : list event) : list EC2.request :=
  match evs with
  | [] => []
  | DescribeVolumes request _ :: rest => request :: requests rest
  | _ :: rest => requests rest
  end.

(** Events that are no remote call at all. *)
Definition local_event (ev : event) : Prop :=
  match ev with
  | DescribeVolumes _ _ | PutDashboard _ _ _ => False
  | _ => True
  end.

(** A computation leaves one component of the state as it found it,
    whatever its outcome. *)
Definition preserves {W A B : Type} (f : state W -> B) (m : M W A) : Prop :=
  forall s, f (snd (m s)) = f s.

(** [get_drive_names] asks the operator about a volume when [if name_tag:]
    fails: no tag, or the empty tag. *)
Definition needs_prompt (volume : volume_info) : bool :=
  match NameTag volume with
  | Some tag => negb (truthy tag)
  | None => true
  end.

(** A line that the drive name prompt accepts. *)
Definition nonblank (line : string) : bool := truthy (strip line).

(** What [create_dashboard] tells the operator after the dashboard write:
    its success message, or the message of the handler that catches what
    the write raised. *)
Definition report (dashboard_name : string) (outcome : exn + unit) : message :=
  match outcome with
  | inr _ => DashboardCreated dashboard_name
  | inl (ClientError m) => AwsApiError (ClientError m)
  | inl e => Error e
  end.



(** ** Reading a trace of the front end *)

(** The events a run of the front end added. *)
Definition ui_events_since {W : Type} (before after : session W) : list ui_event :=
  drop (length (ui_trace before)) (ui_trace after).

(** The events of the part embedded above, among those of the front end. *)
Fixpoint core_events (evs : list ui_event) : list event :=
  match evs with
  | [] => []
  | Core e :: rest => e :: core_events rest
  | _ :: rest => core_events rest
  end.


(** Whatever its outcome, a computation of the front end adds only events
    that satisfy [P]. *)
Definition ui_always_logs {W A : Type} (P : ui_event -> Prop) (m : UI W A) : Prop :=
  forall s, exists evs, ui_trace (snd (m s)) = ui_trace s ++ evs /\ Forall P evs.

(** A line selects a region from a list when [int] reads it as a number
    from 1 to the length of the list. *)
Definition selects {W : Type} `{!FrontEnd W} (regions : list string) (line : string) : Prop :=
  exists number,
    int line = Some number /\ 1 <= number <= Z.of_nat (length regions).


(** What a record of the lookup copies from the listing: identifier, size
    and the device of the first attachment. *)
Definition copied_from (volume : EC2.volume) (info : volume_info) : Prop :=
  VolumeId info = EC2.VolumeId volume
  /\ Size info = EC2.Size volume
  /\ exists first others,
       EC2.Attachments volume = first :: others /\ DeviceName info = EC2.Device first.

(** * Properties *)

Import DashboardCreationEBS.

(** ** The widget builders *)

Section Widgets.

Variables volume_id drive_name region : string.

Lemma throughput_bytes_eq (limit : Z) : limit * 1024 * 1024 = limit * 1048576.
Proof. lia. Qed.

(** C2.  For every throughput limit [T] in MB/s the throughput widget
    carries one horizontal annotation, whose value is [T * 1048576]; the
    IOPS widget carries one horizontal annotation, whose value is the IOPS
    limit as supplied. *)
Theorem annotation_values (limit : Z) :
  horizontal_annotations (generate_throughput_widget volume_id drive_name region limit)
    = Some (PList [PDict [("value", PInt (limit * 1048576)); ("fill", PStr "below")]])
  /\ annotation_value (generate_throughput_widget volume_id drive_name region limit)
    = Some (PInt (limit * 1048576))
  /\ horizontal_annotations (generate_iops_widget volume_id drive_name region limit)
    = Some (PList [PDict [("value", PInt limit); ("fill", PStr "below")]])
  /\ annotation_value (generate_iops_widget volume_id drive_name region limit)
    = Some (PInt limit).
Proof.
  unfold annotation_value, horizontal_annotations, generate_throughput_widget,
    generate_iops_widget.
  cbn. rewrite throughput_bytes_eq. repeat split.
Qed.

(** C9.  On the widget-building core the two scripts agree: for all
    inputs, [generate_iops_widget] and [generate_throughput_widget] of
    [dashboardcreation_EBS.py] return the descriptors that the functions of
    the same names in [dashboardwithoutanimation.py] return. *)
Theorem widget_builders_agree (limit : Z) :
  generate_iops_widget volume_id drive_name region limit
    = DashboardWithoutAnimation.generate_iops_widget volume_id drive_name region limit
  /\ generate_throughput_widget volume_id drive_name region limit
    = DashboardWithoutAnimation.generate_throughput_widget
        volume_id drive_name region limit.
Proof. split; reflexivity. Qed.

End Widgets.

(** C8.  The scenario of the specification: volume [vol-1], IOPS 3000,
    throughput 125, drive name [DATA].  The IOPS widget is titled
    [IOPS - vol-1_DATA] and annotated at 3000; the throughput widget is
    titled [Throughput - vol-1_DATA] and annotated at 131072000. *)
Theorem scenario_vol1_DATA (region : string) :
  let iops_widget :=
    DashboardCreationEBS.generate_iops_widget "vol-1" "DATA" region 3000 in
  let throughput_widget :=
    DashboardCreationEBS.generate_throughput_widget "vol-1" "DATA" region 125 in
  title iops_widget = Some (PStr "IOPS - vol-1_DATA")
  /\ annotation_value iops_widget = Some (PInt 3000)
  /\ title throughput_widget = Some (PStr "Throughput - vol-1_DATA")
  /\ annotation_value throughput_widget = Some (PInt 131072000).
Proof. repeat split. Qed.


(** ** The instance ID prompt *)

Section InstanceId.

(** The test of the loop is the rule of the specification. *)
Lemma instance_id_test (s : string) :
  startswith "i-" s && (2 <? len s) = true <-> valid_instance_id s.
Proof.
  unfold valid_instance_id, startswith, len.
  rewrite andb_true_iff, Z.ltb_lt. split.
  - intros [Hp Hl]. split; [|lia].
    destruct s as [|c1 s]; cbn [String.prefix] in Hp; [discriminate Hp|].
    destruct (ascii_dec "i" c1) as [<-|]; [|discriminate Hp].
    destruct s as [|c2 rest]; cbn [String.prefix] in Hp; [discriminate Hp|].
    destruct (ascii_dec "-" c2) as [<-|]; [|discriminate Hp].
    now exists rest.
  - intros [[rest ->] Hl]. split; [|lia].
    cbn [String.prefix String.append]. destruct (ascii_dec "i" "i"); [|congruence].
    destruct (ascii_dec "-" "-"); [|congruence].
    now destruct rest.
Qed.

Lemma instance_id_test_false (s : string) :
  startswith "i-" s && (2 <? len s) = false <-> ~ valid_instance_id s.
Proof.
  rewrite <- instance_id_test. now destruct (startswith "i-" s && (2 <? len s)).
Qed.

Lemma ask_instance_id_cons (line : string) (rest : list string) :
  ask_instance_id (line :: rest) =
    if startswith "i-" (strip line) && (2 <? len (strip line)) then
      (inr (strip line), rest, [Entered EnterInstanceId line])
    else
      let '(r, rest', evs) := ask_instance_id rest in
      (r, rest', Entered EnterInstanceId line :: Printed InvalidInstanceId :: evs).
Proof. reflexivity. Qed.

Lemma ask_instance_id_refuses (rejected : list string) (lines : list string) :
  Forall (fun l => ~ valid_instance_id (strip l)) rejected ->
  ask_instance_id (rejected ++ lines) =
    let '(r, rest, evs) := ask_instance_id lines in (r, rest, refusals rejected ++ evs).
Proof.
  induction 1 as [|l rejected Hl _ IH].
  - simpl. now destruct (ask_instance_id lines) as [[? ?] ?].
  - apply instance_id_test_false in Hl.
    rewrite <- app_comm_cons, ask_instance_id_cons, Hl, IH.
    now destruct (ask_instance_id lines) as [[? ?] ?].
Qed.

Lemma ask_instance_id_accepted (lines : list string) (instance_id : string)
    (rest : list string) (evs : list event) :
  ask_instance_id lines = (inr instance_id, rest, evs) ->
  exists rejected line,
    lines = rejected ++ line :: rest
    /\ instance_id = strip line
    /\ valid_instance_id instance_id
    /\ Forall (fun l => ~ valid_instance_id (strip l)) rejected
    /\ evs = refusals rejected ++ [Entered EnterInstanceId line].
Proof.
  revert instance_id rest evs.
  induction lines as [|l lines IH]; intros instance_id rest evs H; [discriminate|].
  rewrite ask_instance_id_cons in H.
  destruct (startswith "i-" (strip l) && (2 <? len (strip l))) eqn:Ht.
  - injection H as <- <- <-. apply instance_id_test in Ht.
    exists [], l. auto.
  - destruct (ask_instance_id lines) as [[r rest'] evs'] eqn:Hrec.
    injection H as -> -> <-.
    destruct (IH _ _ _ eq_refl) as (rejected & line & -> & -> & Hv & Hrej & ->).
    apply instance_id_test_false in Ht.
    exists (l :: rejected), line. auto 10.
Qed.

(** C7.  The loop returns an instance ID exactly when the lines before the
    accepted one all fail the rule (after stripping) and the accepted one
    passes it: prefix [i-] and length above 2.  Every refused line is
    answered with the format message and a new prompt.  The line [bad-id]
    is therefore never what the loop returns. *)
Theorem instance_id_accepted_iff_valid (lines : list string) (instance_id : string)
    (rest : list string) (evs : list event) :
  (ask_instance_id lines = (inr instance_id, rest, evs) <->
   exists rejected line,
     lines = rejected ++ line :: rest
     /\ instance_id = strip line
     /\ valid_instance_id instance_id
     /\ Forall (fun l => ~ valid_instance_id (strip l)) rejected
     /\ evs = refusals rejected ++ [Entered EnterInstanceId line])
  /\ (ask_instance_id lines = (inr instance_id, rest, evs) -> instance_id <> "bad-id")
  /\ ask_instance_id ("bad-id" :: lines) =
       let '(r, rest', evs') := ask_instance_id lines in
       (r, rest', Entered EnterInstanceId "bad-id" :: Printed InvalidInstanceId :: evs').
Proof.
  split; [split|split].
  - apply ask_instance_id_accepted.
  - intros (rejected & line & -> & -> & Hv & Hrej & ->).
    rewrite (ask_instance_id_refuses rejected _ Hrej), ask_instance_id_cons.
    apply instance_id_test in Hv. rewrite Hv. now rewrite app_nil_r || reflexivity.
  - intros H ->. apply ask_instance_id_accepted in H
      as (_ & line & _ & Hl & [[tail Hp] _] & _).
    discriminate Hp.
  - reflexivity.
Qed.

Lemma instance_id_accepted_iff_valid_witness :
  ask_instance_id ["bad-id"; "i-"; " i-0abc "; "next"]
    = (inr "i-0abc", ["next"],
       refusals ["bad-id"; "i-"] ++ [Entered EnterInstanceId " i-0abc "]).
Proof.
  apply (proj1 (instance_id_accepted_iff_valid
                  ["bad-id"; "i-"; " i-0abc "; "next"] "i-0abc" ["next"]
                  (refusals ["bad-id"; "i-"] ++ [Entered EnterInstanceId " i-0abc "]))).
  exists ["bad-id"; "i-"], " i-0abc ".
  split; [reflexivity|]. split; [reflexivity|].
  split; [apply instance_id_test; reflexivity|].
  split; [|reflexivity].
  repeat constructor; apply instance_id_test_false; reflexivity.
Defined.

End InstanceId.

(** ** The volume inspector *)

Section VolumeDetails.

Context {W : Type} `{!Externals W}.

Lemma find_first {A : Type} (f : A -> bool) (before : list A) (x : A) (after : list A) :
  Forall (fun y => f y = false) before -> f x = true ->
  List.find f (before ++ x :: after) = Some x.
Proof.
  induction 1 as [|y before Hy _ IH]; intros Hx; simpl.
  - now rewrite Hx.
  - rewrite Hy. now apply IH.
Qed.

Lemma find_none {A : Type} (f : A -> bool) (l : list A) :
  (forall y, In y l -> f y = false) -> List.find f l = None.
Proof.
  induction l as [|y l IH]; intros Hl; simpl; [reflexivity|].
  rewrite (Hl y (or_introl eq_refl)). apply IH. intros z Hz. apply Hl. now right.
Qed.

(** C6.  When the detail lookup returns a volume, [get_volume_details]
    yields its [Iops] and [Throughput] fields, 3000 and 125 standing in for
    an absent field, and as name tag the value of the (first) tag whose key
    is [Name], [None] when no tag has that key. *)
Theorem get_volume_details_defaults (volume_id : string) (s : state W)
    (volume : EC2.volume) (others : list EC2.volume) (w : W) :
  ec2_describe_volumes (EC2.ByVolumeIds [volume_id]) (world s)
    = (inr {| EC2.Volumes := volume :: others |}, w) ->
  exists details s',
    get_volume_details volume_id s = (inr details, s')
    /\ (EC2.Iops volume = None -> iops details = 3000)
    /\ (forall n, EC2.Iops volume = Some n -> iops details = n)
    /\ (EC2.Throughput volume = None -> throughput details = 125)
    /\ (forall n, EC2.Throughput volume = Some n -> throughput details = n)
    /\ (forall before tag after,
          EC2.Tags volume = Some (before ++ tag :: after) ->
          Forall (fun t => EC2.Key t <> "Name") before ->
          EC2.Key tag = "Name" ->
          name_tag details = Some (EC2.Value tag))
    /\ (forall tags,
          EC2.Tags volume = Some tags ->
          (forall tag, In tag tags -> EC2.Key tag <> "Name") ->
          name_tag details = None)
    /\ (EC2.Tags volume = None -> name_tag details = None).
Proof.
  intros Hcall.
  unfold get_volume_details, bind, describe_volumes. rewrite Hcall. cbn.
  eexists _, _. split; [reflexivity|]. cbn.
  split; [now intros ->|]. split; [now intros n ->|].
  split; [now intros ->|]. split; [now intros n ->|].
  split; [|split].
  - intros before tag after -> Hbefore Htag. cbn.
    rewrite find_first; [reflexivity| |now apply String.eqb_eq].
    eapply Forall_impl; [exact Hbefore|]. intros t Ht. now apply String.eqb_neq.
  - intros tags -> Hnone. cbn. rewrite find_none; [reflexivity|].
    intros t Ht. apply String.eqb_neq. now apply Hnone.
  - now intros ->.
Qed.

End VolumeDetails.

Lemma get_volume_details_defaults_witness :
  exists details s',
    get_volume_details "vol-1" (SimulatedCloud.start (SimulatedCloud.cloud_of [SimulatedCloud.vol1]) [])
      = (inr details, s')
    /\ iops details = 3000 /\ throughput details = 125 /\ name_tag details = None.
Proof.
  destruct (get_volume_details_defaults (W := SimulatedCloud.cloud) "vol-1"
              (SimulatedCloud.start (SimulatedCloud.cloud_of [SimulatedCloud.vol1]) [])
              SimulatedCloud.vol1 [] (SimulatedCloud.cloud_of [SimulatedCloud.vol1]))
    as (details & s' & Hrun & Hi & _ & Ht & _ & _ & _ & Hn).
  - reflexivity.
  - exists details, s'. split; [exact Hrun|].
    split; [apply Hi; reflexivity|]. split; [apply Ht; reflexivity|].
    apply Hn; reflexivity.
Defined.

(** ** What a run adds to the trace *)

Section Logging.

Context {W : Type} `{!Externals W}.

Lemma events_since_app (s s' : state W) (evs : list event) :
  trace s' = trace s ++ evs -> events_since s s' = evs.
Proof. unfold events_since. intros ->. apply drop_app_length. Qed.

Lemma puts_app (evs1 evs2 : list event) : puts (evs1 ++ evs2) = puts evs1 ++ puts evs2.
Proof.
  induction evs1 as [|ev evs1 IH]; [reflexivity|].
  destruct ev; simpl; rewrite IH; reflexivity.
Qed.

Lemma puts_none (evs : list event) : Forall not_a_put evs -> puts evs = [].
Proof.
  induction 1 as [|ev evs Hev _ IH]; [reflexivity|].
  destruct ev; simpl in *; try exact IH. discriminate Hev.
Qed.

Lemma always_logs_ret {A : Type} (P : event -> Prop) (a : A) : always_logs (W := W) P (ret a).
Proof. intros s. exists []. now rewrite app_nil_r. Qed.

Lemma always_logs_raise {A : Type} (P : event -> Prop) (e : exn) :
  always_logs (W := W) (A := A) P (raise e).
Proof. intros s. exists []. now rewrite app_nil_r. Qed.

Lemma always_logs_print (P : event -> Prop) (m : message) :
  P (Printed m) -> always_logs (W := W) P (print m).
Proof. intros Hm s. exists [Printed m]. split; [reflexivity|]. now constructor. Qed.

Lemma always_logs_describe (P : event -> Prop) (request : EC2.request) :
  (forall outcome, P (DescribeVolumes request outcome)) ->
  always_logs P (describe_volumes request).
Proof.
  intros Hp s. unfold describe_volumes.
  destruct (ec2_describe_volumes request (world s)) as [r w].
  exists [DescribeVolumes request r]. split; [reflexivity|]. now constructor.
Qed.

Lemma always_logs_bind {A B : Type} (P : event -> Prop) (m : M W A) (k : A -> M W B) :
  always_logs P m -> (forall a, always_logs P (k a)) -> always_logs P (bind m k).
Proof.
  intros Hm Hk s. unfold bind. destruct (Hm s) as (evs1 & Ht1 & Hp1).
  destruct (m s) as [[e|a] s1]; simpl in Ht1.
  - now exists evs1.
  - destruct (Hk a s1) as (evs2 & Ht2 & Hp2). exists (evs1 ++ evs2).
    rewrite Ht2, Ht1, app_assoc. split; [reflexivity|]. now apply Forall_app.
Qed.

Lemma always_logs_try_except {A : Type} (P : event -> Prop) (m : M W A)
    (handler : exn -> M W A) :
  always_logs P m -> (forall e, always_logs P (handler e)) ->
  always_logs P (try_except m handler).
Proof.
  intros Hm Hh s. unfold try_except. destruct (Hm s) as (evs1 & Ht1 & Hp1).
  destruct (m s) as [[e|a] s1]; simpl in Ht1.
  - destruct (Hh e s1) as (evs2 & Ht2 & Hp2). exists (evs1 ++ evs2).
    rewrite Ht2, Ht1, app_assoc. split; [reflexivity|]. now apply Forall_app.
  - now exists evs1.
Qed.

Lemma always_logs_for_each {A S : Type} (P : event -> Prop) (xs : list A)
    (body : S -> A -> M W S) (acc : S) :
  (forall acc' x, always_logs P (body acc' x)) -> always_logs P (for_each xs body acc).
Proof.
  intros Hbody. revert acc. induction xs as [|x xs IH]; intros acc; simpl.
  - apply always_logs_ret.
  - apply always_logs_bind; auto.
Qed.

Lemma success_logs_ret {A : Type} (P : event -> Prop) (a : A) : success_logs (W := W) P (ret a).
Proof. intros s a' s' [= <- <-]. exists []. now rewrite app_nil_r. Qed.

Lemma success_logs_raise {A : Type} (P : event -> Prop) (e : exn) :
  success_logs (W := W) (A := A) P (raise e).
Proof. intros s a s' H. discriminate H. Qed.

Lemma success_logs_print (P : event -> Prop) (m : message) :
  P (Printed m) -> success_logs (W := W) P (print m).
Proof.
  intros Hm s a s' [= <- <-]. exists [Printed m]. split; [reflexivity|]. now constructor.
Qed.

Lemma success_logs_describe (request : EC2.request) :
  success_logs not_raised (describe_volumes request).
Proof.
  intros s a s'. unfold describe_volumes.
  destruct (ec2_describe_volumes request (world s)) as [r w].
  intros [= -> <-]. exists [DescribeVolumes request (inr a)].
  split; [reflexivity|]. now constructor.
Qed.

Lemma success_logs_bind {A B : Type} (P : event -> Prop) (m : M W A) (k : A -> M W B) :
  success_logs P m -> (forall a, success_logs P (k a)) -> success_logs P (bind m k).
Proof.
  intros Hm Hk s b s' Hrun. unfold bind in Hrun.
  destruct (m s) as [[e|a] s1] eqn:Hms; [discriminate Hrun|].
  destruct (Hm s a s1 Hms) as (evs1 & Ht1 & Hp1).
  destruct (Hk a s1 b s' Hrun) as (evs2 & Ht2 & Hp2).
  exists (evs1 ++ evs2). rewrite Ht2, Ht1, app_assoc. split; [reflexivity|].
  now apply Forall_app.
Qed.

Lemma success_logs_for_each {A S : Type} (P : event -> Prop) (xs : list A)
    (body : S -> A -> M W S) (acc : S) :
  (forall acc' x, success_logs P (body acc' x)) -> success_logs P (for_each xs body acc).
Proof.
  intros Hbody. revert acc. induction xs as [|x xs IH]; intros acc; simpl.
  - apply success_logs_ret.
  - apply success_logs_bind; auto.
Qed.

End Logging.

Ltac logs :=
  repeat first
    [ apply always_logs_ret
    | apply always_logs_raise
    | apply always_logs_print; reflexivity
    | apply always_logs_describe; reflexivity
    | apply always_logs_bind
    | apply always_logs_try_except
    | apply always_logs_for_each
    | apply success_logs_ret
    | apply success_logs_raise
    | apply success_logs_print; reflexivity
    | apply success_logs_describe
    | apply success_logs_bind
    | apply success_logs_for_each
    | match goal with
      | |- always_logs _ (match ?x with _ => _ end) => destruct x
      | |- success_logs _ (match ?x with _ => _ end) => destruct x
      | |- forall _, _ => intro
      end ].

Section VolumeInfo.

Context {W : Type} `{!Externals W}.

Lemma get_volume_info_no_put (instance_id : string) :
  always_logs (W := W) not_a_put (get_volume_info instance_id).
Proof. unfold get_volume_info, append_volume_info, get_volume_details. logs. Qed.

Lemma collect_quiet (volumes : list EC2.volume) (acc : list volume_info) :
  success_logs (W := W) not_raised (for_each volumes append_volume_info acc).
Proof. unfold append_volume_info, get_volume_details. logs. Qed.

(** The lookup never raises: its handler turns every exception into []. *)
Lemma get_volume_info_returns (instance_id : string) (s : state W) :
  exists infos, fst (get_volume_info instance_id s) = inr infos.
Proof.
  unfold get_volume_info, try_except.
  match goal with |- context [match ?b s with _ => _ end] => destruct (b s) as [[e|infos] s1] end.
  - now exists [].
  - now exists infos.
Qed.

(** A normal return of the lookup means no remote call raised. *)
Lemma get_volume_info_nonempty_quiet (instance_id : string) (s : state W) :
  fst (get_volume_info instance_id s) <> inr [] ->
  Forall not_raised (events_since s (snd (get_volume_info instance_id s))).
Proof.
  unfold get_volume_info, try_except.
  match goal with |- context [match ?b s with _ => _ end] =>
    assert (Hq : success_logs not_raised b)
      by (unfold append_volume_info, get_volume_details; logs);
    destruct (b s) as [[e|infos] s1] eqn:Hb
  end.
  - intros Hne. now contradiction Hne.
  - intros _. destruct (Hq s infos s1 Hb) as (evs & Ht & Hevs).
    simpl. now rewrite (events_since_app _ _ _ Ht).
Qed.

(** One pass of the loop of [get_volume_info] that returns normally has
    found an attachment and has appended one record, for this volume. *)
Lemma append_volume_info_success (acc : list volume_info) (volume : EC2.volume)
    (s s' : state W) (acc' : list volume_info) :
  append_volume_info acc volume s = (inr acc', s') ->
  EC2.Attachments volume <> []
  /\ exists info, acc' = acc ++ [info] /\ VolumeId info = EC2.VolumeId volume.
Proof.
  unfold append_volume_info, bind.
  destruct (EC2.Attachments volume) as [|first others]; [discriminate|]. cbn.
  destruct (get_volume_details (EC2.VolumeId volume) s) as [[e|details] s1];
    [discriminate|].
  intros [= <- <-]. split; [discriminate|]. eexists. split; reflexivity.
Qed.

Lemma collect_success (volumes : list EC2.volume) (acc : list volume_info)
    (s s' : state W) (infos : list volume_info) :
  for_each volumes append_volume_info acc s = (inr infos, s') ->
  Forall (fun volume => EC2.Attachments volume <> []) volumes
  /\ exists new, infos = acc ++ new /\ map VolumeId new = map EC2.VolumeId volumes.
Proof.
  revert acc s. induction volumes as [|volume volumes IH]; intros acc s; simpl.
  - intros [= <- <-]. split; [constructor|]. exists []. now rewrite app_nil_r.
  - unfold bind at 1.
    destruct (append_volume_info acc volume s) as [[e|acc'] s1] eqn:Hstep; [discriminate|].
    intros Hrest. apply append_volume_info_success in Hstep as (Hatt & info & -> & Hid).
    apply IH in Hrest as (Hall & new & -> & Hnew).
    split; [now constructor|]. exists (info :: new).
    rewrite <- app_assoc. split; [reflexivity|]. simpl. now rewrite Hid, Hnew.
Qed.

(** What the lookup returns once the listing call has returned. *)
Lemma get_volume_info_listed (instance_id : string) (s : state W)
    (response : EC2.response) (w : W) :
  ec2_describe_volumes (EC2.ByAttachedInstance instance_id) (world s) = (inr response, w) ->
  let listed :=
    {| world := w; stdin := stdin s;
       trace := (trace s ++ [Printed FetchingVolumes])
                ++ [DescribeVolumes (EC2.ByAttachedInstance instance_id) (inr response)] |} in
  fst (get_volume_info instance_id s) =
    match for_each (EC2.Volumes response) append_volume_info [] listed with
    | (inr infos, _) => inr infos
    | (inl _, _) => inr []
    end.
Proof.
  intros Hcall. unfold get_volume_info, try_except, bind, print, log, describe_volumes.
  cbn. rewrite Hcall. cbn.
  now destruct (for_each (EC2.Volumes response) append_volume_info [] _) as [[e|infos] s1].
Qed.

(** C4.  If a remote call made during the volume lookup raises, the lookup
    returns the empty list - the value it also returns when the listing call
    finds no volume.  The lookup itself never raises. *)
Theorem get_volume_info_swallows_errors (instance_id : string) (s : state W) :
  (forall request e,
     In (DescribeVolumes request (inl e))
        (events_since s (snd (get_volume_info instance_id s))) ->
     fst (get_volume_info instance_id s) = inr [])
  /\ (forall w,
        ec2_describe_volumes (EC2.ByAttachedInstance instance_id) (world s)
          = (inr {| EC2.Volumes := [] |}, w) ->
        fst (get_volume_info instance_id s) = inr [])
  /\ (exists infos, fst (get_volume_info instance_id s) = inr infos).
Proof.
  split; [|split].
  - intros request e Hin.
    destruct (get_volume_info_returns instance_id s) as [[|info infos] Hr]; [exact Hr|].
    assert (Hq : Forall not_raised (events_since s (snd (get_volume_info instance_id s))))
      by (apply get_volume_info_nonempty_quiet; now rewrite Hr).
    rewrite List.Forall_forall in Hq. apply Hq in Hin. discriminate Hin.
  - intros w Hcall. now rewrite (get_volume_info_listed _ _ _ _ Hcall).
  - apply get_volume_info_returns.
Qed.

End VolumeInfo.

Lemma get_volume_info_swallows_errors_witness :
  let c := {| SimulatedCloud.attached := [SimulatedCloud.vol2; SimulatedCloud.vol1];
              SimulatedCloud.unreachable := ["vol-1"];
              SimulatedCloud.dashboards := [] |} in
  fst (get_volume_info "i-0abc" (SimulatedCloud.start c [])) = inr [].
Proof.
  intros c.
  apply (proj1 (get_volume_info_swallows_errors "i-0abc" (SimulatedCloud.start c []))
               (EC2.ByVolumeIds ["vol-1"]) (ClientError "RequestLimitExceeded")).
  vm_compute. right. right. right. left. reflexivity.
Defined.

Section NeverPartial.

Context {W : Type} `{!Externals W}.

(** The two scripts have the same volume lookup. *)
Lemma scripts_share_get_volume_info :
  DashboardWithoutAnimation.get_volume_info (W := W) = get_volume_info.
Proof. reflexivity. Qed.

(** C10.  In both scripts, once the listing call has returned, the lookup
    gives either one record per listed volume, in order, or nothing: a
    listed volume without attachments, or a remote call that raises, empties
    the whole result, whatever was collected before. *)
Theorem get_volume_info_never_partial (script : string -> M W (list volume_info))
    (instance_id : string) (s : state W) (response : EC2.response) (w : W)
    (infos : list volume_info) :
  script = get_volume_info \/ script = DashboardWithoutAnimation.get_volume_info ->
  ec2_describe_volumes (EC2.ByAttachedInstance instance_id) (world s) = (inr response, w) ->
  fst (script instance_id s) = inr infos ->
  (infos = [] \/ map VolumeId infos = map EC2.VolumeId (EC2.Volumes response))
  /\ (Exists (fun volume => EC2.Attachments volume = []) (EC2.Volumes response) ->
      infos = [])
  /\ (Exists (fun ev => raised ev = true) (events_since s (snd (script instance_id s))) ->
      infos = []).
Proof.
  intros Hscript Hcall Hinfos.
  assert (script = get_volume_info) as ->
    by (destruct Hscript as [->| ->]; [reflexivity|apply scripts_share_get_volume_info]).
  clear Hscript. split; [|split].
  - rewrite (get_volume_info_listed _ _ _ _ Hcall) in Hinfos. cbn zeta in Hinfos.
    destruct (for_each _ _ _ _) as [[e|collected] s1] eqn:Hloop;
      injection Hinfos as <-; [now left|].
    apply collect_success in Hloop as (_ & new & -> & Hnew). now right.
  - intros Hdetached.
    rewrite (get_volume_info_listed _ _ _ _ Hcall) in Hinfos. cbn zeta in Hinfos.
    destruct (for_each _ _ _ _) as [[e|collected] s1] eqn:Hloop;
      injection Hinfos as <-; [reflexivity|].
    apply collect_success in Hloop as (Hattached & _).
    apply List.Exists_exists in Hdetached as (volume & Hin & Hnone).
    rewrite List.Forall_forall in Hattached. now apply Hattached in Hin.
  - intros Hraised. destruct infos as [|info infos]; [reflexivity|].
    assert (Hq : Forall not_raised (events_since s (snd (get_volume_info instance_id s))))
      by (apply get_volume_info_nonempty_quiet; now rewrite Hinfos).
    apply List.Exists_exists in Hraised as (ev & Hin & Hev).
    rewrite List.Forall_forall in Hq. apply Hq in Hin. unfold not_raised in Hin. congruence.
Qed.

End NeverPartial.

Lemma get_volume_info_never_partial_witness :
  fst (get_volume_info "i-0abc"
         (SimulatedCloud.start
            (SimulatedCloud.cloud_of [SimulatedCloud.vol1; SimulatedCloud.detached]) []))
    = inr [].
Proof.
  pose (c := SimulatedCloud.cloud_of [SimulatedCloud.vol1; SimulatedCloud.detached]).
  destruct (get_volume_info_never_partial get_volume_info "i-0abc"
              (SimulatedCloud.start c [])
              {| EC2.Volumes := [SimulatedCloud.vol1; SimulatedCloud.detached] |} c [])
    as (_ & Hdetached & _).
  - left. reflexivity.
  - reflexivity.
  - reflexivity.
  - reflexivity.
Defined.

(** ** Drive names *)

Section DriveNames.

Context {W : Type} `{!Externals W}.

Lemma ask_drive_name_cons (line : string) (rest : list string) :
  ask_drive_name (line :: rest) =
    if truthy (strip line) then
      (inr (strip line), rest, [Entered EnterDriveName line])
    else
      let '(r, rest', evs) := ask_drive_name rest in
      (r, rest', Entered EnterDriveName line :: Printed DriveNameCannotBeEmpty :: evs).
Proof. reflexivity. Qed.

Lemma truthy_true (s : string) : truthy s = true <-> s <> "".
Proof. destruct s; simpl; split; congruence. Qed.

Lemma truthy_false (s : string) : truthy s = false <-> s = "".
Proof. destruct s; simpl; split; congruence. Qed.

(** The questions of the drive name loop never write a dashboard. *)
Lemma ask_drive_name_no_put (lines : list string) :
  Forall not_a_put (snd (ask_drive_name lines)).
Proof.
  induction lines as [|line lines IH]; [repeat constructor|].
  rewrite ask_drive_name_cons. destruct (truthy (strip line)); [repeat constructor|].
  destruct (ask_drive_name lines) as [[r rest'] evs]. repeat constructor. exact IH.
Qed.

Lemma always_logs_ask_drive_name :
  always_logs (W := W) not_a_put (console ask_drive_name).
Proof.
  intros s. unfold console. pose proof (ask_drive_name_no_put (stdin s)) as Hevs.
  destruct (ask_drive_name (stdin s)) as [[r rest] evs]. now exists evs.
Qed.

Lemma get_drive_names_no_put (volumes : list volume_info) :
  always_logs (W := W) not_a_put (get_drive_names volumes).
Proof.
  unfold get_drive_names, resolve_drive_name.
  repeat first [ apply always_logs_ask_drive_name | progress logs
               | match goal with |- always_logs _ (if ?b then _ else _) => destruct b end ].
Qed.

(** One pass of the loop of [get_drive_names], spelled out. *)
Lemma resolve_drive_name_run (drive_names : gmap string string) (volume : volume_info)
    (s : state W) :
  let shown := trace s ++ [Printed (VolumeDetails (VolumeId volume) (DeviceName volume)
                                                   (Size volume))] in
  let asked :=
    let '(r, rest, evs) := ask_drive_name (stdin s) in
    (match r with
     | inr drive_name => inr (<[VolumeId volume := drive_name]> drive_names)
     | inl e => inl e
     end,
     {| world := world s; stdin := rest; trace := shown ++ evs |}) in
  resolve_drive_name drive_names volume s =
    match NameTag volume with
    | Some tag =>
        if truthy tag then
          (inr (<[VolumeId volume := tag]> drive_names),
           {| world := world s; stdin := stdin s;
              trace := shown ++ [Printed (UsingNameFromTag tag)] |})
        else asked
    | None => asked
    end.
Proof.
  unfold resolve_drive_name, bind, print, log, console, ret.
  destruct (NameTag volume) as [tag|]; [destruct (truthy tag)|]; simpl;
    [reflexivity| |];
    now destruct (ask_drive_name (stdin s)) as [[[e|d] rest] evs].
Qed.

(** When the loop of [get_drive_names] returns, every volume it went
    through has an entry, and no earlier entry is lost. *)
Lemma resolve_covers (volumes : list volume_info) (drive_names drive_names' : gmap string string)
    (s s' : state W) :
  for_each volumes resolve_drive_name drive_names s = (inr drive_names', s') ->
  (forall key, is_Some (drive_names !! key) -> is_Some (drive_names' !! key))
  /\ Forall (fun volume => is_Some (drive_names' !! VolumeId volume)) volumes.
Proof.
  revert drive_names s. induction volumes as [|volume volumes IH]; intros drive_names s; simpl.
  - intros [= <- <-]. split; [auto|constructor].
  - unfold bind at 1.
    destruct (resolve_drive_name drive_names volume s) as [[e|next] s1] eqn:Hstep;
      [discriminate|].
    intros Hrest. apply IH in Hrest as (Hkeep & Hall).
    assert (Hnext : exists name, next = <[VolumeId volume := name]> drive_names).
    { rewrite resolve_drive_name_run in Hstep. cbn zeta in Hstep.
      destruct (ask_drive_name (stdin s)) as [[[e|d] rest] evs];
        destruct (NameTag volume) as [tag|]; try destruct (truthy tag);
        try discriminate Hstep; injection Hstep as <- <-; eauto. }
    destruct Hnext as (name & ->). split.
    + intros key Hkey. apply Hkeep.
      destruct (decide (VolumeId volume = key)) as [<-|Hne].
      * rewrite lookup_insert_eq. eauto.
      * now rewrite lookup_insert_ne.
    + constructor; [|exact Hall]. apply Hkeep. rewrite lookup_insert_eq. eauto.
Qed.

End DriveNames.

(** ** The dashboard *)

Section Dashboard.

Context {W : Type} `{!Externals W}.

Variable self : EBSDashboardGenerator.

Lemma bind_print {A : Type} (m : message) (k : unit -> M W A) (s : state W) :
  bind (print m) k s =
    k tt {| world := world s; stdin := stdin s; trace := trace s ++ [Printed m] |}.
Proof. reflexivity. Qed.

Lemma extend_widgets_run (drive_names : gmap string string) (widgets : list pyval)
    (volume : volume_info) (drive_name : string) (s : state W) :
  drive_names !! VolumeId volume = Some drive_name ->
  extend_widgets self drive_names widgets volume s =
    (inr (widgets ++ [
       metric_widget (generate_iops_widget (VolumeId volume) drive_name (region self)
                                           (Iops volume));
       metric_widget (generate_throughput_widget (VolumeId volume) drive_name (region self)
                                                 (Throughput volume))]), s).
Proof. intros Hname. unfold extend_widgets, bind. now rewrite Hname. Qed.

(** With a drive name for every volume, the widget loop appends two widgets
    per volume, IOPS first, in the order of the volumes, and touches
    nothing else. *)
Lemma extend_all (drive_names : gmap string string) (volumes : list volume_info)
    (widgets : list pyval) (s : state W) :
  Forall (fun volume => is_Some (drive_names !! VolumeId volume)) volumes ->
  exists new,
    for_each volumes (extend_widgets self drive_names) widgets s = (inr (widgets ++ new), s)
    /\ length new = (2 * length volumes)%nat
    /\ (forall k volume, volumes !! k = Some volume ->
        exists drive_name,
          drive_names !! VolumeId volume = Some drive_name
          /\ new !! (2 * k)%nat =
               Some (metric_widget (generate_iops_widget
                       (VolumeId volume) drive_name (region self) (Iops volume)))
          /\ new !! (2 * k + 1)%nat =
               Some (metric_widget (generate_throughput_widget
                       (VolumeId volume) drive_name (region self) (Throughput volume))))
    /\ Forall (fun widget => exists properties, widget = metric_widget properties) new.
Proof.
  intros Hall. revert widgets.
  induction Hall as [|volume volumes [drive_name Hname] _ IH]; intros widgets.
  - exists []. simpl. rewrite app_nil_r. repeat split; [|constructor].
    intros k volume Hk. discriminate Hk.
  - destruct (IH (widgets ++ [
       metric_widget (generate_iops_widget (VolumeId volume) drive_name (region self)
                                           (Iops volume));
       metric_widget (generate_throughput_widget (VolumeId volume) drive_name (region self)
                                                 (Throughput volume))]))
      as (new & Hrun & Hlen & Hat & Hshape).
    eexists (_ :: _ :: new). split; [|split; [|split]].
    + simpl. unfold bind at 1. rewrite (extend_widgets_run _ _ _ _ _ Hname), Hrun.
      now rewrite <- app_assoc.
    + simpl. rewrite Hlen. lia.
    + intros [|k] other Hk.
      * injection Hk as <-. exists drive_name. repeat split; assumption.
      * destruct (Hat k other Hk) as (name & Hn & Hi & Ht). exists name.
        replace (2 * S k)%nat with (S (S (2 * k))) by lia.
        replace (S (S (2 * k)) + 1)%nat with (S (S (2 * k + 1))) by lia.
        repeat split; assumption.
    + repeat constructor; eauto.
Qed.

(** C5.  When the volume lookup gives the empty list, [create_dashboard]
    only reports that no volume was found and returns: the run contains no
    dashboard write. *)
Theorem create_dashboard_skips_without_volumes (instance_id dashboard_name : string)
    (s : state W) :
  fst (get_volume_info instance_id s) = inr [] ->
  let looked_up := snd (get_volume_info instance_id s) in
  create_dashboard self instance_id dashboard_name s =
    (inr tt, {| world := world looked_up; stdin := stdin looked_up;
                trace := trace looked_up ++ [Printed (NoVolumesFound instance_id)] |})
  /\ puts (events_since s (snd (create_dashboard self instance_id dashboard_name s))) = [].
Proof.
  intros Hempty looked_up.
  assert (Hrun : create_dashboard self instance_id dashboard_name s =
    (inr tt, {| world := world looked_up; stdin := stdin looked_up;
                trace := trace looked_up ++ [Printed (NoVolumesFound instance_id)] |})).
  { unfold create_dashboard, try_except. unfold bind at 1. subst looked_up.
    destruct (get_volume_info instance_id s) as [r s1]. simpl in Hempty. subst r.
    reflexivity. }
  split; [exact Hrun|]. rewrite Hrun. simpl.
  destruct (get_volume_info_no_put instance_id s) as (evs & Htrace & Hevs).
  fold looked_up in Htrace.
  rewrite (events_since_app s _ (evs ++ [Printed (NoVolumesFound instance_id)])).
  - rewrite puts_app, (puts_none _ Hevs). reflexivity.
  - simpl. now rewrite Htrace, app_assoc.
Qed.

End Dashboard.

Lemma create_dashboard_skips_without_volumes_witness :
  puts (trace (snd (create_dashboard {| region := "eu-west-1" |} "i-0abc" "volumes"
                      (SimulatedCloud.start (SimulatedCloud.cloud_of []) ["DATA"])))) = [].
Proof.
  apply (create_dashboard_skips_without_volumes
           {| region := "eu-west-1" |} "i-0abc" "volumes"
           (SimulatedCloud.start (SimulatedCloud.cloud_of []) ["DATA"])).
  reflexivity.
Defined.

Section Publish.

Context {W : Type} `{!Externals W}.

Variable self : EBSDashboardGenerator.

(** C1.  When the lookup gives [N > 0] volumes and the drive names are
    resolved, the run makes exactly one dashboard write.  Its document is
    [{"widgets": widgets}] where [widgets] has [2 * N] entries, every entry
    is [{"type": "metric", "width": 12, "height": 6, "properties": ...}],
    and entries [2k] and [2k + 1] carry the IOPS and the throughput widget
    of volume number [k]. *)
Theorem create_dashboard_publishes (instance_id dashboard_name : string) (s : state W)
    (volumes : list volume_info) (looked_up : state W)
    (drive_names : gmap string string) (named : state W) :
  get_volume_info instance_id s = (inr volumes, looked_up) ->
  volumes <> [] ->
  (print (FoundVolumes (length volumes) instance_id) ;; get_drive_names volumes) looked_up
    = (inr drive_names, named) ->
  exists widgets,
    puts (events_since s (snd (create_dashboard self instance_id dashboard_name s)))
      = [(dashboard_name, json_dumps (PDict [("widgets", PList widgets)]))]
    /\ length widgets = (2 * length volumes)%nat
    /\ Forall (fun widget => exists properties,
                 widget = PDict [("type", PStr "metric"); ("width", PInt 12);
                                 ("height", PInt 6); ("properties", properties)]) widgets
    /\ forall k volume, volumes !! k = Some volume ->
         exists drive_name,
           drive_names !! VolumeId volume = Some drive_name
           /\ widgets !! (2 * k)%nat =
                Some (PDict [("type", PStr "metric"); ("width", PInt 12);
                             ("height", PInt 6);
                             ("properties",
                              generate_iops_widget (VolumeId volume) drive_name
                                (region self) (Iops volume))])
           /\ widgets !! (2 * k + 1)%nat =
                Some (PDict [("type", PStr "metric"); ("width", PInt 12);
                             ("height", PInt 6);
                             ("properties",
                              generate_throughput_widget (VolumeId volume) drive_name
                                (region self) (Throughput volume))]).
Proof.
  intros Hlookup Hsome Hnames.
  assert (Hcover : Forall (fun volume => is_Some (drive_names !! VolumeId volume)) volumes).
  { rewrite bind_print in Hnames. unfold get_drive_names in Hnames.
    rewrite !bind_print in Hnames. now apply resolve_covers in Hnames. }
  destruct (extend_all self drive_names volumes []
              {| world := world named; stdin := stdin named;
                 trace := trace named ++ [Printed GeneratingWidgets] |} Hcover)
    as (widgets & Hloop & Hlen & Hat & Hshape).
  exists widgets. split; [|split; [exact Hlen|split; [exact Hshape|exact Hat]]].
  destruct (get_volume_info_no_put instance_id s) as (evs1 & Ht1 & Hevs1).
  rewrite Hlookup in Ht1. simpl in Ht1.
  destruct (always_logs_bind not_a_put
              (print (FoundVolumes (length volumes) instance_id))
              (fun _ => get_drive_names volumes)
              (always_logs_print _ _ eq_refl)
              (fun _ => get_drive_names_no_put volumes) looked_up)
    as (evs2 & Ht2 & Hevs2).
  rewrite Hnames in Ht2. simpl in Ht2.
  pose (body := json_dumps (PDict [("widgets", PList widgets)])).
  assert (Hfinal : exists outcome closing,
    trace (snd (create_dashboard self instance_id dashboard_name s)) =
      trace named ++ [Printed GeneratingWidgets; Printed CreatingDashboard;
                      PutDashboard dashboard_name body outcome; Printed closing]).
  { unfold create_dashboard, try_except. unfold bind at 1. rewrite Hlookup.
    destruct volumes as [|volume others]; [contradiction|].
    rewrite bind_print in Hnames. rewrite bind_print. unfold bind at 1.
    rewrite Hnames. rewrite bind_print. unfold bind at 1. rewrite Hloop.
    rewrite bind_print. unfold bind at 1. unfold put_dashboard at 1.
    cbn [world stdin trace]. subst body.
    destruct (cloudwatch_put_dashboard dashboard_name _ (world named))
      as [[e|[]] w] eqn:Hput.
    - exists (inl e). destruct e; eexists; cbn; rewrite <- !app_assoc; reflexivity.
    - exists (inr tt). eexists. cbn. rewrite <- !app_assoc. reflexivity. }
  destruct Hfinal as (outcome & closing & Hfinal).
  rewrite (events_since_app s _
             (evs1 ++ evs2 ++ [Printed GeneratingWidgets; Printed CreatingDashboard;
                               PutDashboard dashboard_name body outcome; Printed closing])).
  - rewrite !puts_app, (puts_none _ Hevs1), (puts_none _ Hevs2). reflexivity.
  - rewrite Hfinal, Ht2, Ht1, <- !app_assoc. reflexivity.
Qed.

End Publish.

Lemma create_dashboard_publishes_witness :
  let s := SimulatedCloud.start
             (SimulatedCloud.cloud_of [SimulatedCloud.vol1; SimulatedCloud.vol2])
             [" "; " DATA "] in
  exists widgets,
    puts (events_since s (snd (create_dashboard {| region := "eu-west-1" |}
                                 "i-0abc" "volumes" s)))
      = [("volumes", json_dumps (PDict [("widgets", PList widgets)]))]
    /\ length widgets = 4%nat.
Proof.
  intros s.
  edestruct (create_dashboard_publishes (W := SimulatedCloud.cloud)
               {| region := "eu-west-1" |} "i-0abc" "volumes" s)
    as (widgets & Hput & Hlen & _).
  - vm_compute. reflexivity.
  - discriminate.
  - vm_compute. reflexivity.
  - exists widgets. split; [exact Hput|exact Hlen].
Defined.

(** ** Which drive name a volume gets *)

Section Resolution.

Context {W : Type} `{!Externals W}.

(** Events other than the details of a volume leave the count of volumes
    in a trace alone. *)
Lemma entered_per_volume_app (seg rest : list event) :
  Forall (fun ev => entered_per_volume [ev] = []) seg ->
  entered_per_volume (seg ++ rest) = entered_per_volume rest.
Proof.
  induction 1 as [|ev seg Hev _ IH]; [reflexivity|].
  destruct ev as [[]| | | |]; simpl in *; try exact IH. discriminate Hev.
Qed.

Lemma entered_until_next_volume_app (seg rest : list event) :
  Forall (fun ev => entered_per_volume [ev] = []) seg ->
  entered_until_next_volume (seg ++ rest) =
    entered_until_next_volume seg ++ entered_until_next_volume rest.
Proof.
  induction 1 as [|ev seg Hev _ IH]; [reflexivity|].
  destruct ev as [[]|[]| | |]; simpl in *; rewrite ?IH; try reflexivity.
  discriminate Hev.
Qed.

(** The drive name loop returns the first line that is not blank,
    stripped, after asking again for every blank line before it. *)
Lemma ask_drive_name_answered (lines : list string) (drive_name : string)
    (rest : list string) (evs : list event) :
  ask_drive_name lines = (inr drive_name, rest, evs) ->
  exists blanks line,
    lines = blanks ++ line :: rest
    /\ first_answer (blanks ++ [line]) drive_name
    /\ Forall (fun ev => entered_per_volume [ev] = []) evs
    /\ entered_until_next_volume evs = blanks ++ [line].
Proof.
  revert drive_name rest evs.
  induction lines as [|l lines IH]; intros drive_name rest evs Hrun; [discriminate|].
  rewrite ask_drive_name_cons in Hrun. destruct (truthy (strip l)) eqn:Hl.
  - injection Hrun as <- <- <-. apply truthy_true in Hl.
    exists [], l. split; [reflexivity|]. split; [|split; [repeat constructor|reflexivity]].
    exists [], l. auto.
  - destruct (ask_drive_name lines) as [[r rest'] evs'] eqn:Hrec.
    injection Hrun as -> -> <-. apply truthy_false in Hl.
    destruct (IH _ _ _ eq_refl)
      as (blanks & line & -> & (blanks' & line' & Heq & Hblank & Hline & ->) & Hquiet & Hent).
    apply app_inj_tail in Heq as [<- <-].
    exists (l :: blanks), line. split; [reflexivity|].
    split; [|split; [repeat constructor; exact Hquiet|simpl; now rewrite Hent]].
    exists (l :: blanks), line. auto.
Qed.

(** One pass of the loop of [get_drive_names] that returns: the details are
    printed, then either the tag is used and nothing is asked, or the
    operator is asked until the answer is not blank. *)
Lemma resolve_step (drive_names next : gmap string string) (volume : volume_info)
    (s s' : state W) :
  resolve_drive_name drive_names volume s = (inr next, s') ->
  exists name seg,
    next = <[VolumeId volume := name]> drive_names
    /\ trace s' = trace s ++ Printed (VolumeDetails (VolumeId volume) (DeviceName volume)
                                                    (Size volume)) :: seg
    /\ Forall (fun ev => entered_per_volume [ev] = []) seg
    /\ match NameTag volume with
       | Some tag =>
           if truthy tag then entered_until_next_volume seg = [] /\ name = tag
           else first_answer (entered_until_next_volume seg) name
       | None => first_answer (entered_until_next_volume seg) name
       end.
Proof.
  rewrite resolve_drive_name_run. cbn zeta. intros Hrun.
  assert (Hasked :
    (let '(r, rest, evs) := ask_drive_name (stdin s) in
     (match r with
      | inr drive_name => inr (<[VolumeId volume := drive_name]> drive_names)
      | inl e => inl e
      end,
      {| world := world s; stdin := rest;
         trace := (trace s ++ [Printed (VolumeDetails (VolumeId volume) (DeviceName volume)
                                                      (Size volume))]) ++ evs |}))
    = (inr next, s') ->
    exists name seg,
      next = <[VolumeId volume := name]> drive_names
      /\ trace s' = trace s ++ Printed (VolumeDetails (VolumeId volume) (DeviceName volume)
                                                      (Size volume)) :: seg
      /\ Forall (fun ev => entered_per_volume [ev] = []) seg
      /\ first_answer (entered_until_next_volume seg) name).
  { destruct (ask_drive_name (stdin s)) as [[[e|d] rest] evs] eqn:Hask; [discriminate|].
    intros [= <- <-].
    apply ask_drive_name_answered in Hask as (blanks & line & _ & Hfirst & Hquiet & Hent).
    exists d, evs. rewrite Hent, <- app_assoc. auto. }
  destruct (NameTag volume) as [tag|]; [destruct (truthy tag)|]; auto.
  injection Hrun as <- <-. exists tag, [Printed (UsingNameFromTag tag)].
  rewrite <- app_assoc. repeat split; repeat constructor.
Qed.

(** The loop of [get_drive_names] as a whole. *)
Lemma resolve_all (volumes : list volume_info) (drive_names final : gmap string string)
    (s s' : state W) :
  for_each volumes resolve_drive_name drive_names s = (inr final, s') ->
  exists names evs,
    trace s' = trace s ++ evs
    /\ entered_until_next_volume evs = []
    /\ length names = length volumes
    /\ final = foldl (fun m vn => <[VolumeId vn.1 := vn.2]> m) drive_names (zip volumes names)
    /\ (forall key, Forall (fun volume => VolumeId volume <> key) volumes ->
        final !! key = drive_names !! key)
    /\ forall k volume, volumes !! k = Some volume ->
         exists name answers,
           names !! k = Some name
           /\ entered_per_volume evs !! k = Some answers
           /\ match NameTag volume with
              | Some tag =>
                  if truthy tag then answers = [] /\ name = tag
                  else first_answer answers name
              | None => first_answer answers name
              end
           /\ (Forall (fun later => VolumeId later <> VolumeId volume) (drop (S k) volumes) ->
               final !! VolumeId volume = Some name).
Proof.
  revert drive_names s.
  induction volumes as [|volume volumes IH]; intros drive_names s; simpl.
  - intros [= <- <-]. exists [], []. rewrite app_nil_r.
    repeat split; auto. intros k volume Hk. discriminate Hk.
  - unfold bind at 1.
    destruct (resolve_drive_name drive_names volume s) as [[e|next] s1] eqn:Hstep;
      [discriminate|].
    intros Hrest.
    apply resolve_step in Hstep as (name & seg & -> & Ht1 & Hquiet & Hname).
    apply IH in Hrest as (names & evs & Ht2 & Hfresh & Hlen & Hfold & Hframe & Hat).
    exists (name :: names),
      (Printed (VolumeDetails (VolumeId volume) (DeviceName volume) (Size volume))
         :: seg ++ evs).
    split; [rewrite Ht2, Ht1, <- app_assoc; reflexivity|].
    split; [reflexivity|]. split; [simpl; now rewrite Hlen|]. split; [exact Hfold|].
    split.
    + intros key Hkey. apply Forall_cons in Hkey as [Hne Hkey].
      rewrite (Hframe key Hkey). now apply lookup_insert_ne.
    + intros [|k] other Hk.
      * injection Hk as <-. exists name, (entered_until_next_volume seg).
        split; [reflexivity|]. split.
        { simpl. rewrite (entered_until_next_volume_app _ _ Hquiet), Hfresh.
          now rewrite app_nil_r. }
        split; [exact Hname|]. intros Hlater. simpl in Hlater.
        rewrite (Hframe _ Hlater). apply lookup_insert_eq.
      * destruct (Hat k other Hk) as (name' & answers & Hn & Hans & Hrule & Hfinal).
        exists name', answers. split; [exact Hn|]. split.
        { simpl. now rewrite (entered_per_volume_app _ _ Hquiet). }
        split; [exact Hrule|exact Hfinal].
Qed.

End Resolution.

Section ResolutionTheorem.

Context {W : Type} `{!Externals W}.

(** C3, as the code has it.  In a run of [get_drive_names] that returns,
    every volume of the list gets a drive name, and the returned dict holds
    these names under the volume identifiers, inserted in list order.  For
    a volume whose name tag is present and not the empty string nothing is
    entered and the name is the tag, verbatim.  For a volume whose name tag
    is absent or empty, the operator is asked, and the name is the stripped
    form of the first line entered for that volume that is not blank. *)
Theorem get_drive_names_resolution (volumes : list volume_info) (s s' : state W)
    (drive_names : gmap string string) :
  get_drive_names volumes s = (inr drive_names, s') ->
  exists names : list string,
    length names = length volumes
    /\ drive_names = foldl (fun m vn => <[VolumeId vn.1 := vn.2]> m) ∅ (zip volumes names)
    /\ forall k volume, volumes !! k = Some volume ->
         exists name answers,
           names !! k = Some name
           /\ entered_per_volume (events_since s s') !! k = Some answers
           /\ match NameTag volume with
              | Some tag =>
                  if truthy tag then answers = [] /\ name = tag
                  else first_answer answers name
              | None => first_answer answers name
              end
           /\ (Forall (fun later => VolumeId later <> VolumeId volume) (drop (S k) volumes) ->
               drive_names !! VolumeId volume = Some name).
Proof.
  unfold get_drive_names. rewrite !bind_print. intros Hrun.
  apply resolve_all in Hrun as (names & evs & Ht & _ & Hlen & Hfold & _ & Hat).
  simpl in Ht. exists names. split; [exact Hlen|]. split; [exact Hfold|].
  rewrite (events_since_app s s' ([Printed CollectingDriveNames; Printed Rule] ++ evs))
    by (rewrite Ht, <- !app_assoc; reflexivity).
  exact Hat.
Qed.

End ResolutionTheorem.

Lemma get_drive_names_resolution_witness :
  let tagged := {| VolumeId := "vol-2"; DeviceName := "/dev/sdg"; Size := 500;
                   NameTag := Some "SYSDB"; Iops := 16000; Throughput := 1000 |} in
  let untagged := {| VolumeId := "vol-1"; DeviceName := "/dev/sdf"; Size := 100;
                     NameTag := None; Iops := 3000; Throughput := 125 |} in
  exists names : list string,
    names !! 0%nat = Some "SYSDB" /\ first_answer [" "; " DATA "] "DATA"
    /\ names !! 1%nat = Some "DATA".
Proof.
  intros tagged untagged.
  pose (s := SimulatedCloud.start (SimulatedCloud.cloud_of []) [" "; " DATA "; "unused"]).
  edestruct (get_drive_names_resolution (W := SimulatedCloud.cloud) [tagged; untagged] s)
    as (names & _ & _ & Hat).
  - vm_compute. reflexivity.
  - destruct (Hat 0%nat tagged eq_refl) as (name0 & answers0 & Hn0 & _ & [_ ->] & _).
    destruct (Hat 1%nat untagged eq_refl) as (name1 & answers1 & Hn1 & Ha1 & Hfirst & _).
    injection Ha1 as <-.
    assert (name1 = "DATA") as ->.
    { destruct Hfirst as (blanks & line & Heq & _ & _ & ->).
      change [" "; " DATA "] with ([" "] ++ [" DATA "]) in Heq.
      apply app_inj_tail in Heq as [_ <-]. reflexivity. }
    exists names. auto.
Defined.

(** C3 as the specification words it fails twice.  A volume whose [Name]
    tag is the empty string has its tag present (the lookup reports [''],
    not [None]), yet the operator is asked and the answer becomes the drive
    name.  And the name of an untagged volume is the stripped answer, not
    the line as it was entered. *)
Lemma empty_name_tag_is_prompted :
  let tagged_empty := {| VolumeId := "vol-3"; DeviceName := "/dev/sdh"; Size := 8;
                         NameTag := Some ""; Iops := 3000; Throughput := 125 |} in
  let untagged := {| VolumeId := "vol-1"; DeviceName := "/dev/sdf"; Size := 100;
                     NameTag := None; Iops := 3000; Throughput := 125 |} in
  fst (get_volume_info "i-0abc"
         (SimulatedCloud.start (SimulatedCloud.cloud_of [SimulatedCloud.vol3]) []))
    = inr [tagged_empty]
  /\ ~ (forall (volumes : list volume_info) (s s' : state SimulatedCloud.cloud)
               (drive_names : gmap string string),
          get_drive_names volumes s = (inr drive_names, s') ->
          forall k volume tag,
            volumes !! k = Some volume ->
            NameTag volume = Some tag ->
            entered_per_volume (events_since s s') !! k = Some []
            /\ drive_names !! VolumeId volume = Some tag)
  /\ ~ (forall (volumes : list volume_info) (s s' : state SimulatedCloud.cloud)
               (drive_names : gmap string string),
          get_drive_names volumes s = (inr drive_names, s') ->
          forall k volume,
            volumes !! k = Some volume ->
            NameTag volume = None ->
            exists answers line,
              entered_per_volume (events_since s s') !! k = Some answers
              /\ List.find (fun l => truthy (strip l)) answers = Some line
              /\ drive_names !! VolumeId volume = Some line).
Proof.
  intros tagged_empty untagged. split; [reflexivity|]. split; intros Hclaim.
  - pose (s := SimulatedCloud.start (SimulatedCloud.cloud_of []) ["LOGS"]).
    destruct (get_drive_names [tagged_empty] s) as [[e|drive_names] s'] eqn:Hrun;
      [vm_compute in Hrun; discriminate Hrun|].
    destruct (Hclaim [tagged_empty] s s' _ Hrun 0%nat tagged_empty "" eq_refl eq_refl)
      as [Hentered _].
    vm_compute in Hrun. injection Hrun as _ <-. vm_compute in Hentered.
    discriminate Hentered.
  - pose (s := SimulatedCloud.start (SimulatedCloud.cloud_of []) [" DATA "]).
    destruct (get_drive_names [untagged] s) as [[e|drive_names] s'] eqn:Hrun;
      [vm_compute in Hrun; discriminate Hrun|].
    destruct (Hclaim [untagged] s s' _ Hrun 0%nat untagged eq_refl eq_refl)
      as (answers & line & Hentered & Hfind & Hname).
    vm_compute in Hrun. injection Hrun as <- <-.
    vm_compute in Hentered. injection Hentered as <-.
    vm_compute in Hfind. injection Hfind as <-.
    vm_compute in Hname. discriminate Hname.
Qed.

(** * Beyond the claims *)

(** ** The volume lookup: what it calls, what it copies, what it leaves *)

Section LookupDetails.

Context {W : Type} `{!Externals W}.


(** [get_volume_details] makes one call, whatever comes of it. *)
Lemma get_volume_details_step (volume_id : string) (s : state W) :
  exists outcome,
    trace (snd (get_volume_details volume_id s))
      = trace s ++ [DescribeVolumes (EC2.ByVolumeIds [volume_id]) outcome]
    /\ stdin (snd (get_volume_details volume_id s)) = stdin s.
Proof.
  unfold get_volume_details, bind, describe_volumes.
  destruct (ec2_describe_volumes (EC2.ByVolumeIds [volume_id]) (world s)) as [[e|response] w].
  - now exists (inl e).
  - exists (inr response). now destruct (EC2.Volumes response).
Qed.

(** X17.  The detail lookup when the call raises or finds nothing: the
    exception goes to the caller as it is; an empty answer gives no name tag and the
    gp3 defaults.  In both cases the call is the only thing that happened. *)
Theorem get_volume_details_without_volume (volume_id : string) (s : state W)
    (outcome : exn + EC2.response) (w : W) :
  ec2_describe_volumes (EC2.ByVolumeIds [volume_id]) (world s) = (outcome, w) ->
  match outcome with
  | inr response => EC2.Volumes response = []
  | inl _ => True
  end ->
  get_volume_details volume_id s =
    (match outcome with
     | inr _ => inr {| name_tag := None; iops := 3000; throughput := 125 |}
     | inl e => inl e
     end,
     {| world := w; stdin := stdin s;
        trace := trace s ++ [DescribeVolumes (EC2.ByVolumeIds [volume_id]) outcome] |}).
Proof.
  intros Hcall Hempty. unfold get_volume_details, bind, describe_volumes. rewrite Hcall.
  destruct outcome as [e|response]; [reflexivity|]. cbn. now rewrite Hempty.
Qed.

Lemma for_each_cons {A S : Type} (x : A) (xs : list A) (body : S -> A -> M W S)
    (acc : S) (s : state W) :
  for_each (x :: xs) body acc s =
    match body acc x s with
    | (inr next, s') => for_each xs body next s'
    | (inl e, s') => (inl e, s')
    end.
Proof. reflexivity. Qed.

(** One pass of the loop of the lookup, spelled out. *)
Lemma append_volume_info_run (acc : list volume_info) (volume : EC2.volume) (s : state W) :
  append_volume_info acc volume s =
    match EC2.Attachments volume with
    | [] => (inl IndexError, s)
    | first :: _ =>
        match get_volume_details (EC2.VolumeId volume) s with
        | (inr details, s') =>
            (inr (acc ++ [{| VolumeId := EC2.VolumeId volume;
                             DeviceName := EC2.Device first;
                             Size := EC2.Size volume;
                             NameTag := name_tag details;
                             Iops := iops details;
                             Throughput := throughput details |}]), s')
        | (inl e, s') => (inl e, s')
        end
    end.
Proof.
  unfold append_volume_info, bind.
  destruct (EC2.Attachments volume) as [|first others]; [reflexivity|]. cbn.
  now destruct (get_volume_details (EC2.VolumeId volume) s) as [[e|details] s'].
Qed.

(** The lookup as a whole, spelled out. *)
Lemma get_volume_info_run (instance_id : string) (s : state W) :
  get_volume_info instance_id s =
    let request := EC2.ByAttachedInstance instance_id in
    let started := trace s ++ [Printed FetchingVolumes] in
    match ec2_describe_volumes request (world s) with
    | (inl e, w) =>
        (inr [], {| world := w; stdin := stdin s;
                    trace := (started ++ [DescribeVolumes request (inl e)])
                             ++ [Printed (ErrorGettingVolumeInformation e)] |})
    | (inr response, w) =>
        match for_each (EC2.Volumes response) append_volume_info []
                {| world := w; stdin := stdin s;
                   trace := started ++ [DescribeVolumes request (inr response)] |} with
        | (inr infos, s') => (inr infos, s')
        | (inl e, s') =>
            (inr [], {| world := world s'; stdin := stdin s';
                        trace := trace s' ++ [Printed (ErrorGettingVolumeInformation e)] |})
        end
    end.
Proof.
  unfold get_volume_info, try_except, bind, print, log, describe_volumes. cbn.
  destruct (ec2_describe_volumes (EC2.ByAttachedInstance instance_id) (world s))
    as [[e|response] w]; [reflexivity|].
  now destruct (for_each (EC2.Volumes response) append_volume_info [] _) as [[e|infos] s'].
Qed.

(** What the loop of the lookup has done when it stops, for whatever
    reason: it has asked for the details of the first [k] volumes, one call
    each, in order; [k] is the number of volumes when it returns normally.
    It has not touched the operator's input. *)
Lemma collect_requests (volumes : list EC2.volume) (acc : list volume_info) (s : state W) :
  exists k evs,
    trace (snd (for_each volumes append_volume_info acc s)) = trace s ++ evs
    /\ requests evs
       = List.map (fun volume => EC2.ByVolumeIds [EC2.VolumeId volume]) (take k volumes)
    /\ stdin (snd (for_each volumes append_volume_info acc s)) = stdin s
    /\ (forall infos, fst (for_each volumes append_volume_info acc s) = inr infos ->
        k = length volumes).
Proof.
  revert acc s. induction volumes as [|volume volumes IH]; intros acc s.
  - exists 0%nat, []. simpl. rewrite app_nil_r. auto.
  - rewrite for_each_cons, append_volume_info_run.
    destruct (EC2.Attachments volume) as [|first others].
    + exists 0%nat, []. simpl. rewrite app_nil_r. repeat split; auto. discriminate.
    + destruct (get_volume_details_step (EC2.VolumeId volume) s) as (outcome & Ht & Hin).
      destruct (get_volume_details (EC2.VolumeId volume) s) as [[e|details] s1];
        simpl in Ht, Hin.
      * exists 1%nat, [DescribeVolumes (EC2.ByVolumeIds [EC2.VolumeId volume]) outcome].
        simpl. repeat split; auto; try discriminate.
      * match goal with |- context [for_each volumes append_volume_info ?a s1] =>
          destruct (IH a s1) as (k & evs & Ht2 & Hreq & Hin2 & Hk) end.
        exists (S k),
          (DescribeVolumes (EC2.ByVolumeIds [EC2.VolumeId volume]) outcome :: evs).
        simpl. rewrite Ht2, Ht, <- app_assoc, Hreq, Hin2, Hin.
        repeat split; auto. intros infos Hinfos. f_equal. eauto.
Qed.


End LookupDetails.


Lemma get_volume_details_without_volume_witness :
  fst (get_volume_details "vol-7"
         (SimulatedCloud.start (SimulatedCloud.cloud_of [SimulatedCloud.vol1]) []))
    = inr {| name_tag := None; iops := 3000; throughput := 125 |}.
Proof.
  rewrite (get_volume_details_without_volume (W := SimulatedCloud.cloud) "vol-7"
             (SimulatedCloud.start (SimulatedCloud.cloud_of [SimulatedCloud.vol1]) [])
             (inr {| EC2.Volumes := [] |}) (SimulatedCloud.cloud_of [SimulatedCloud.vol1])).
  - reflexivity.
  - reflexivity.
  - reflexivity.
Defined.

Section LookupRecords.

Context {W : Type} `{!Externals W}.

Lemma collect_records (volumes : list EC2.volume) (acc : list volume_info)
    (s s' : state W) (infos : list volume_info) :
  for_each volumes append_volume_info acc s = (inr infos, s') ->
  exists new, infos = acc ++ new /\ Forall2 copied_from volumes new.
Proof.
  revert acc s. induction volumes as [|volume volumes IH]; intros acc s.
  - intros [= <- <-]. exists []. rewrite app_nil_r. split; [reflexivity|constructor].
  - rewrite for_each_cons, append_volume_info_run.
    destruct (EC2.Attachments volume) as [|first others] eqn:Hatt; [discriminate|].
    destruct (get_volume_details (EC2.VolumeId volume) s) as [[e|details] s1];
      [discriminate|].
    intros Hrest. apply IH in Hrest as (new & -> & Hnew).
    eexists (_ :: new). rewrite <- app_assoc. split; [reflexivity|].
    constructor; [|exact Hnew]. repeat split. exists first, others. now rewrite Hatt.
Qed.

(** X2.  A lookup that returns volumes returns one record per listed
    volume, in order; each record has the identifier and size of its
    volume and, as device name, the device of the first of its attachments.
    The lookup does not consume operator input. *)
Theorem get_volume_info_records (instance_id : string) (s : state W)
    (response : EC2.response) (w : W) (infos : list volume_info) :
  ec2_describe_volumes (EC2.ByAttachedInstance instance_id) (world s) = (inr response, w) ->
  fst (get_volume_info instance_id s) = inr infos ->
  infos <> [] ->
  Forall2 copied_from (EC2.Volumes response) infos
  /\ stdin (snd (get_volume_info instance_id s)) = stdin s.
Proof.
  rewrite get_volume_info_run. cbn zeta. intros -> Hinfos Hsome.
  match goal with |- context [for_each _ _ _ ?s1] =>
    destruct (collect_requests (EC2.Volumes response) [] s1) as (_ & _ & _ & _ & Hin & _);
    destruct (for_each (EC2.Volumes response) append_volume_info [] s1)
      as [[e|collected] s2] eqn:Hloop end; cbn [fst snd] in *.
  - injection Hinfos as <-. now contradiction Hsome.
  - injection Hinfos as <-. apply collect_records in Hloop as (new & -> & Hnew).
    split; [exact Hnew|exact Hin].
Qed.

End LookupRecords.

Lemma get_volume_info_records_witness :
  Forall2 copied_from [SimulatedCloud.vol2]
    [{| VolumeId := "vol-2"; DeviceName := "/dev/sdg"; Size := 500;
        NameTag := Some "SYSDB"; Iops := 16000; Throughput := 1000 |}].
Proof.
  apply (get_volume_info_records (W := SimulatedCloud.cloud) "i-0abc"
           (SimulatedCloud.start (SimulatedCloud.cloud_of [SimulatedCloud.vol2]) ["DATA"])
           {| EC2.Volumes := [SimulatedCloud.vol2] |}
           (SimulatedCloud.cloud_of [SimulatedCloud.vol2])).
  - reflexivity.
  - reflexivity.
  - discriminate.
Defined.

(** ** Drive names: the entries of the dict and the input it takes *)

Section DriveNameEntries.

Context {W : Type} `{!Externals W}.

(** The name a pass of the loop records is never empty. *)
Lemma resolve_step_name (drive_names next : gmap string string) (volume : volume_info)
    (s s' : state W) :
  resolve_drive_name drive_names volume s = (inr next, s') ->
  exists name, next = <[VolumeId volume := name]> drive_names /\ name <> "".
Proof.
  intros Hstep. apply resolve_step in Hstep as (name & seg & -> & _ & _ & Hname).
  exists name. split; [reflexivity|].
  assert (Hfirst : forall answers, first_answer answers name -> name <> "")
    by (intros answers (blanks & line & _ & _ & Hline & ->); exact Hline).
  destruct (NameTag volume) as [tag|]; [|eauto].
  destruct (truthy tag) eqn:Htag; [|eauto].
  destruct Hname as [_ ->]. now apply truthy_true.
Qed.

Lemma resolve_entries (volumes : list volume_info) (drive_names final : gmap string string)
    (s s' : state W) :
  for_each volumes resolve_drive_name drive_names s = (inr final, s') ->
  forall key name, final !! key = Some name ->
    drive_names !! key = Some name
    \/ (name <> "" /\ exists volume, In volume volumes /\ VolumeId volume = key).
Proof.
  revert drive_names s. induction volumes as [|volume volumes IH]; intros drive_names s.
  - intros [= <- <-] key name Hkey. now left.
  - rewrite for_each_cons.
    destruct (resolve_drive_name drive_names volume s) as [[e|next] s1] eqn:Hstep;
      [discriminate|].
    intros Hrest key name Hkey.
    apply resolve_step_name in Hstep as (recorded & -> & Hrecorded).
    destruct (IH _ _ Hrest key name Hkey) as [Hnext|(Hname & other & Hin & Hid)].
    + destruct (decide (VolumeId volume = key)) as [Heq|Hne].
      * subst key. rewrite lookup_insert_eq in Hnext. injection Hnext as <-.
        right. split; [exact Hrecorded|]. exists volume. split; [now left|reflexivity].
      * rewrite lookup_insert_ne in Hnext by exact Hne. now left.
    + right. split; [exact Hname|]. exists other. split; [now right|exact Hid].
Qed.

(** X3.  The dict that [get_drive_names] returns has an entry exactly for
    the identifiers of the volumes it was given, and no entry is the empty
    string. *)
Theorem get_drive_names_entries (volumes : list volume_info) (s s' : state W)
    (drive_names : gmap string string) (key : string) :
  get_drive_names volumes s = (inr drive_names, s') ->
  (is_Some (drive_names !! key) <->
   exists volume, In volume volumes /\ VolumeId volume = key)
  /\ (forall name, drive_names !! key = Some name -> name <> "").
Proof.
  unfold get_drive_names. rewrite !bind_print. intros Hrun.
  pose proof (resolve_entries _ _ _ _ _ Hrun key) as Hentries.
  apply resolve_covers in Hrun as [_ Hcover].
  split; [split|].
  - intros [name Hname].
    destruct (Hentries name Hname) as [Hempty|[_ Hvolume]]; [|exact Hvolume].
    rewrite lookup_empty in Hempty. discriminate Hempty.
  - intros (volume & Hin & <-). rewrite List.Forall_forall in Hcover. now apply Hcover.
  - intros name Hname.
    destruct (Hentries name Hname) as [Hempty|[Hne _]]; [|exact Hne].
    rewrite lookup_empty in Hempty. discriminate Hempty.
Qed.

End DriveNameEntries.

Lemma get_drive_names_entries_witness :
  let volume := {| VolumeId := "vol-3"; DeviceName := "/dev/sdh"; Size := 8;
                   NameTag := Some ""; Iops := 3000; Throughput := 125 |} in
  exists drive_names s',
    get_drive_names [volume] (SimulatedCloud.start (SimulatedCloud.cloud_of []) ["LOGS"])
      = (inr drive_names, s')
    /\ is_Some (drive_names !! "vol-3").
Proof.
  intros volume.
  destruct (get_drive_names [volume]
              (SimulatedCloud.start (SimulatedCloud.cloud_of []) ["LOGS"]))
    as [[e|drive_names] s'] eqn:Hrun; [vm_compute in Hrun; discriminate Hrun|].
  exists drive_names, s'. split; [reflexivity|].
  apply (proj1 (get_drive_names_entries (W := SimulatedCloud.cloud) [volume] _ s'
                  drive_names "vol-3" Hrun)).
  exists volume. split; [now left|reflexivity].
Defined.

Section DriveNameInput.

Context {W : Type} `{!Externals W}.

(** The drive name loop answers with the first line that is not blank and
    leaves what follows it; without such a line it ends in [EOFError] with
    the input used up.  It only ever prints and reads. *)
Lemma ask_drive_name_outcome (lines : list string) :
  Forall local_event (snd (ask_drive_name lines))
  /\ (exists consumed, lines = consumed ++ snd (fst (ask_drive_name lines)))
  /\ match List.filter nonblank lines with
     | [] =>
         fst (fst (ask_drive_name lines)) = inl EOFError
         /\ snd (fst (ask_drive_name lines)) = []
     | first :: later =>
         fst (fst (ask_drive_name lines)) = inr (strip first)
         /\ List.filter nonblank (snd (fst (ask_drive_name lines))) = later
     end.
Proof.
  induction lines as [|line lines (Hlocal & [consumed Hconsumed] & IH)].
  - split; [repeat constructor|]. split; [now exists []|]. now split.
  - rewrite ask_drive_name_cons. cbn [List.filter]. unfold nonblank at 1.
    destruct (truthy (strip line)).
    + split; [repeat constructor|]. split; [now exists [line]|]. now split.
    + destruct (ask_drive_name lines) as [[r rest] evs]. cbn [fst snd] in *.
      split; [repeat constructor; exact Hlocal|].
      split; [exists (line :: consumed); now rewrite Hconsumed at 1|exact IH].
Qed.

Lemma resolve_drive_name_asked (drive_names : gmap string string) (volume : volume_info)
    (s : state W) :
  needs_prompt volume = true ->
  resolve_drive_name drive_names volume s =
    let '(r, rest, evs) := ask_drive_name (stdin s) in
    (match r with
     | inr drive_name => inr (<[VolumeId volume := drive_name]> drive_names)
     | inl e => inl e
     end,
     {| world := world s; stdin := rest;
        trace := (trace s ++ [Printed (VolumeDetails (VolumeId volume) (DeviceName volume)
                                                     (Size volume))]) ++ evs |}).
Proof.
  unfold needs_prompt. intros Hneed. rewrite resolve_drive_name_run. cbn zeta.
  destruct (NameTag volume) as [tag|]; [|reflexivity].
  destruct (truthy tag); [discriminate Hneed|reflexivity].
Qed.

Lemma resolve_drive_name_tagged (drive_names : gmap string string) (volume : volume_info)
    (s : state W) :
  needs_prompt volume = false ->
  exists tag s',
    resolve_drive_name drive_names volume s
      = (inr (<[VolumeId volume := tag]> drive_names), s')
    /\ world s' = world s /\ stdin s' = stdin s.
Proof.
  unfold needs_prompt. intros Hneed. rewrite resolve_drive_name_run. cbn zeta.
  destruct (NameTag volume) as [tag|]; [|discriminate Hneed].
  destruct (truthy tag); [|discriminate Hneed]. eexists _, _. split; [reflexivity|]. auto.
Qed.

(** The loop of [get_drive_names] against the input: it needs one line
    that is not blank per volume it must ask about. *)
Lemma resolve_input (volumes : list volume_info) (drive_names : gmap string string)
    (s : state W) :
  let need := length (List.filter needs_prompt volumes) in
  let available := List.filter nonblank (stdin s) in
  let run := for_each volumes resolve_drive_name drive_names s in
  world (snd run) = world s
  /\ (exists consumed, stdin s = consumed ++ stdin (snd run))
  /\ ((need <= length available)%nat ->
      (exists final, fst run = inr final)
      /\ List.filter nonblank (stdin (snd run)) = drop need available)
  /\ ((length available < need)%nat ->
      fst run = inl EOFError /\ stdin (snd run) = []).
Proof.
  revert drive_names s. induction volumes as [|volume volumes IH]; intros drive_names s.
  - cbn. split; [reflexivity|]. split; [now exists []|]. split; [eauto|lia].
  - cbn zeta. rewrite for_each_cons. cbn [List.filter].
    destruct (needs_prompt volume) eqn:Hneed.
    + rewrite (resolve_drive_name_asked _ _ _ Hneed).
      destruct (ask_drive_name_outcome (stdin s)) as (_ & [consumed Hconsumed] & Hout).
      destruct (ask_drive_name (stdin s)) as [[r rest] evs]. cbn [fst snd] in *.
      destruct (List.filter nonblank (stdin s)) as [|first later].
      * destruct Hout as [-> ->]. cbn. split; [reflexivity|].
        split; [exists consumed; exact Hconsumed|]. split; [lia|auto].
      * destruct Hout as [-> Hlater].
        match goal with |- context [for_each volumes resolve_drive_name ?next ?s1] =>
          destruct (IH next s1) as (Hworld & [consumed' Hconsumed'] & Hok & Hfail) end.
        cbn [stdin world] in *. rewrite Hlater in Hok, Hfail.
        split; [exact Hworld|].
        split; [exists (consumed ++ consumed');
                rewrite <- app_assoc, <- Hconsumed'; exact Hconsumed|].
        cbn [length drop]. split; intros Hcount; [apply Hok|apply Hfail]; lia.
    + destruct (resolve_drive_name_tagged drive_names volume s Hneed)
        as (tag & s1 & -> & Hw & Hin).
      destruct (IH (<[VolumeId volume := tag]> drive_names) s1)
        as (Hworld & Hconsumed & Hok & Hfail).
      rewrite Hw, Hin in *. auto.
Qed.

(** [get_drive_names] against the input and the world. *)
Lemma get_drive_names_feeds (volumes : list volume_info) (s : state W) :
  let need := length (List.filter needs_prompt volumes) in
  let available := List.filter nonblank (stdin s) in
  let run := get_drive_names volumes s in
  world (snd run) = world s
  /\ Forall local_event (events_since s (snd run))
  /\ ((need <= length available)%nat ->
      (exists drive_names, fst run = inr drive_names)
      /\ List.filter nonblank (stdin (snd run)) = drop need available)
  /\ ((length available < need)%nat ->
      fst run = inl EOFError /\ stdin (snd run) = []).
Proof.
  cbn zeta. split; [|split].
  - unfold get_drive_names. rewrite !bind_print.
    now destruct (resolve_input volumes ∅
                    {| world := world s; stdin := stdin s;
                       trace := (trace s ++ [Printed CollectingDriveNames])
                                ++ [Printed Rule] |}) as (Hworld & _).
  - assert (Hlogs : always_logs (W := W) local_event (get_drive_names volumes)).
    { unfold get_drive_names, resolve_drive_name.
      repeat first
        [ apply always_logs_ret
        | apply always_logs_print; exact I
        | apply always_logs_bind
        | apply always_logs_for_each
        | match goal with
          | |- always_logs _ (match ?x with _ => _ end) => destruct x
          | |- always_logs _ (if ?b then _ else _) => destruct b
          | |- always_logs _ (console ask_drive_name) =>
              let s := fresh "s" in
              intros s; unfold console;
              pose proof (proj1 (ask_drive_name_outcome (stdin s)));
              destruct (ask_drive_name (stdin s)) as [[? ?] ?]; eauto
          | |- forall _, _ => intro
          end ]. }
    destruct (Hlogs s) as (evs & Ht & Hevs). now rewrite (events_since_app _ _ _ Ht).
  - unfold get_drive_names. rewrite !bind_print.
    destruct (resolve_input volumes ∅
                {| world := world s; stdin := stdin s;
                   trace := (trace s ++ [Printed CollectingDriveNames])
                            ++ [Printed Rule] |}) as (_ & _ & Hok & Hfail).
    split; [exact Hok|exact Hfail].
Qed.


(** X4.  [get_drive_names] returns exactly when the input still holds, for
    every volume it has to ask about (no tag, or the empty tag), a line that
    is not blank; it then leaves the lines that follow the last one it
    used.  Otherwise it ends in [EOFError] with the input used up.  In both
    cases it makes no remote call and the world is as before. *)
Theorem get_drive_names_input (volumes : list volume_info) (s : state W) :
  let need := length (List.filter needs_prompt volumes) in
  let available := List.filter nonblank (stdin s) in
  let run := get_drive_names volumes s in
  world (snd run) = world s
  /\ Forall local_event (events_since s (snd run))
  /\ ((need <= length available)%nat ->
      (exists drive_names, fst run = inr drive_names)
      /\ List.filter nonblank (stdin (snd run)) = drop need available)
  /\ ((length available < need)%nat ->
      fst run = inl EOFError /\ stdin (snd run) = []).
Proof. apply get_drive_names_feeds. Qed.

End DriveNameInput.

Lemma get_drive_names_input_witness :
  let asked := {| VolumeId := "vol-1"; DeviceName := "/dev/sdf"; Size := 100;
                  NameTag := None; Iops := 3000; Throughput := 125 |} in
  fst (get_drive_names [asked; asked]
         (SimulatedCloud.start (SimulatedCloud.cloud_of []) [" "; "DATA"; ""]))
    = inl EOFError.
Proof.
  intros asked.
  apply (proj2 (proj2 (proj2
           (get_drive_names_input (W := SimulatedCloud.cloud) [asked; asked]
              (SimulatedCloud.start (SimulatedCloud.cloud_of []) [" "; "DATA"; ""]))))).
  vm_compute. lia.
Defined.

(** ** The dashboard step as a whole *)

Section DashboardRun.

Context {W : Type} `{!Externals W}.

Variable self : EBSDashboardGenerator.

(** The widget loop changes nothing but its list. *)
Lemma extend_keeps_state (drive_names : gmap string string) (volumes : list volume_info)
    (widgets : list pyval) (s : state W) :
  snd (for_each volumes (extend_widgets self drive_names) widgets s) = s.
Proof.
  revert widgets. induction volumes as [|volume volumes IH]; intros widgets; [reflexivity|].
  rewrite for_each_cons. unfold extend_widgets at 1, bind.
  destruct (drive_names !! VolumeId volume); cbn; [apply IH|reflexivity].
Qed.

(** [create_dashboard], spelled out along its four ways to end. *)
Lemma create_dashboard_run (instance_id dashboard_name : string) (s : state W) :
  let say (m : message) (s1 : state W) : (exn + unit) * state W :=
    (inr tt, {| world := world s1; stdin := stdin s1; trace := trace s1 ++ [Printed m] |}) in
  create_dashboard self instance_id dashboard_name s =
    match get_volume_info instance_id s with
    | (inl e, s1) => say (report dashboard_name (inl e)) s1
    | (inr [], s1) => say (NoVolumesFound instance_id) s1
    | (inr (first :: others), s1) =>
        let volumes := first :: others in
        match (print (FoundVolumes (length volumes) instance_id) ;;
               get_drive_names volumes) s1 with
        | (inl e, s2) => say (report dashboard_name (inl e)) s2
        | (inr drive_names, s2) =>
            let s3 := {| world := world s2; stdin := stdin s2;
                         trace := trace s2 ++ [Printed GeneratingWidgets] |} in
            match fst (for_each volumes (extend_widgets self drive_names) [] s3) with
            | inl e => say (report dashboard_name (inl e)) s3
            | inr widgets =>
                let body := json_dumps (PDict [("widgets", PList widgets)]) in
                let '(outcome, w) :=
                  cloudwatch_put_dashboard dashboard_name body (world s2) in
                (inr tt,
                 {| world := w; stdin := stdin s2;
                    trace := trace s2 ++ [Printed GeneratingWidgets;
                                          Printed CreatingDashboard;
                                          PutDashboard dashboard_name body outcome;
                                          Printed (report dashboard_name outcome)] |})
            end
        end
    end.
Proof.
  cbn zeta. unfold create_dashboard, try_except. unfold bind at 1.
  destruct (get_volume_info instance_id s) as [[e|[|first others]] s1].
  - now destruct e.
  - reflexivity.
  - rewrite !bind_print. unfold bind at 1.
    destruct (get_drive_names (first :: others) _) as [[e|drive_names] s2];
      [now destruct e|].
    rewrite bind_print. unfold bind at 1.
    pose proof (extend_keeps_state drive_names (first :: others) []
                  {| world := world s2; stdin := stdin s2;
                     trace := trace s2 ++ [Printed GeneratingWidgets] |}) as Hkeep.
    destruct (for_each (first :: others) (extend_widgets self drive_names) [] _)
      as [[e|widgets] s3]; cbn [fst snd] in *; subst s3; [now destruct e|].
    rewrite bind_print. unfold bind, put_dashboard. cbn [world stdin trace].
    destruct (cloudwatch_put_dashboard dashboard_name _ (world s2)) as [[e|[]] w];
      [destruct e|]; unfold print, log; cbn; rewrite <- ?app_assoc; reflexivity.
Qed.


(** X6.  After the write: with volumes found and drive names resolved, the
    widget loop cannot fail; [create_dashboard] makes the write and returns
    normally whatever the write does, leaving the world as the write left
    it.  Its last message is the success message, the AWS API error message
    for a [ClientError], the plain error message for any other exception. *)
Theorem create_dashboard_after_write (instance_id dashboard_name : string) (s : state W)
    (volumes : list volume_info) (looked_up : state W)
    (drive_names : gmap string string) (named : state W) :
  get_volume_info instance_id s = (inr volumes, looked_up) ->
  volumes <> [] ->
  (print (FoundVolumes (length volumes) instance_id) ;; get_drive_names volumes) looked_up
    = (inr drive_names, named) ->
  exists widgets outcome w,
    cloudwatch_put_dashboard dashboard_name
      (json_dumps (PDict [("widgets", PList widgets)])) (world named) = (outcome, w)
    /\ create_dashboard self instance_id dashboard_name s =
         (inr tt,
          {| world := w; stdin := stdin named;
             trace := trace named ++
               [Printed GeneratingWidgets; Printed CreatingDashboard;
                PutDashboard dashboard_name
                  (json_dumps (PDict [("widgets", PList widgets)])) outcome;
                Printed (report dashboard_name outcome)] |}).
Proof.
  intros Hlookup Hsome Hnames. rewrite create_dashboard_run. cbn zeta. rewrite Hlookup.
  destruct volumes as [|first others]; [contradiction|]. rewrite Hnames.
  assert (Hcover : Forall (fun volume => is_Some (drive_names !! VolumeId volume))
                          (first :: others)).
  { rewrite bind_print in Hnames. unfold get_drive_names in Hnames.
    rewrite !bind_print in Hnames. now apply resolve_covers in Hnames. }
  destruct (extend_all self drive_names (first :: others) []
              {| world := world named; stdin := stdin named;
                 trace := trace named ++ [Printed GeneratingWidgets] |} Hcover)
    as (widgets & Hloop & _).
  rewrite Hloop. cbn [fst app].
  destruct (cloudwatch_put_dashboard dashboard_name _ (world named)) as [outcome w] eqn:Hput.
  exists widgets, outcome, w. split; [exact Hput|reflexivity].
Qed.

(** X7.  When volumes are found but the input holds too few lines that are
    not blank, [create_dashboard] reports [EOFError] as a plain error and
    returns normally; the input is used up and no dashboard is written. *)
Theorem create_dashboard_out_of_input (instance_id dashboard_name : string) (s : state W)
    (volumes : list volume_info) (looked_up : state W) :
  get_volume_info instance_id s = (inr volumes, looked_up) ->
  volumes <> [] ->
  (length (List.filter nonblank (stdin looked_up))
     < length (List.filter needs_prompt volumes))%nat ->
  let final := snd (create_dashboard self instance_id dashboard_name s) in
  fst (create_dashboard self instance_id dashboard_name s) = inr tt
  /\ last (trace final) = Some (Printed (Error EOFError))
  /\ stdin final = []
  /\ puts (events_since s final) = [].
Proof.
  intros Hlookup Hsome Hshort. cbn zeta. rewrite create_dashboard_run. cbn zeta.
  destruct (get_volume_info_no_put instance_id s) as (evs1 & Ht1 & Hevs1).
  rewrite Hlookup in *. cbn [snd] in Ht1.
  destruct volumes as [|first others]; [contradiction|]. rewrite bind_print.
  match goal with |- context [get_drive_names _ ?s1] =>
    destruct (get_drive_names_no_put (first :: others) s1) as (evs2 & Ht2 & Hevs2);
    destruct (get_drive_names_feeds (first :: others) s1) as (_ & _ & _ & Hfail);
    destruct (Hfail Hshort) as [Hr Hin];
    destruct (get_drive_names (first :: others) s1) as [r s2]
  end.
  cbn [fst snd] in *. subst r. cbn [fst snd world stdin trace report].
  split; [reflexivity|]. split; [now rewrite last_snoc|]. split; [exact Hin|].
  erewrite events_since_app; [|cbn; rewrite Ht2; cbn; rewrite Ht1, <- !app_assoc; reflexivity].
  rewrite !puts_app, (puts_none _ Hevs1), (puts_none _ Hevs2). reflexivity.
Qed.

End DashboardRun.

Lemma create_dashboard_after_write_witness :
  let s := SimulatedCloud.start (SimulatedCloud.cloud_of [SimulatedCloud.vol2]) [] in
  exists widgets,
    SimulatedCloud.dashboards
      (world (snd (create_dashboard {| region := "eu-west-1" |} "i-0abc" "volumes" s)))
    = [("volumes", json_dumps (PDict [("widgets", PList widgets)]))].
Proof.
  intros s.
  edestruct (create_dashboard_after_write (W := SimulatedCloud.cloud)
               {| region := "eu-west-1" |} "i-0abc" "volumes" s)
    as (widgets & outcome & w & Hput & Hrun).
  - vm_compute. reflexivity.
  - discriminate.
  - vm_compute. reflexivity.
  - exists widgets. rewrite Hrun. cbn [snd world].
    cbn [cloudwatch_put_dashboard SimulatedCloud.externals SimulatedCloud.put] in Hput.
    injection Hput as _ <-. reflexivity.
Defined.

Lemma create_dashboard_out_of_input_witness :
  let s := SimulatedCloud.start (SimulatedCloud.cloud_of [SimulatedCloud.vol1]) [" "] in
  puts (events_since s (snd (create_dashboard {| region := "eu-west-1" |}
                               "i-0abc" "volumes" s))) = [].
Proof.
  intros s.
  eapply (create_dashboard_out_of_input (W := SimulatedCloud.cloud)
            {| region := "eu-west-1" |} "i-0abc" "volumes" s).
  - vm_compute. reflexivity.
  - discriminate.
  - vm_compute. lia.
Defined.

(** ** The documents are proper dicts *)


(** ** The front end: regions and the three prompts *)

Import DashboardCreationEBS_Main.

Section FrontEndPrompts.

Context {W : Type} `{!Externals W} `{!FrontEnd W}.




Lemma ask_region_cons (regions : list string) (line : string) (rest : list string) :
  ask_region regions (line :: rest) =
    match int line with
    | Some number =>
        let region_index := number - 1 in
        if (0 <=? region_index) && (region_index <? Z.of_nat (length regions)) then
          match regions !! Z.to_nat region_index with
          | Some selected_region =>
              (inr selected_region, rest, [Typed SelectRegionNumber line])
          | None => (inl IndexError, rest, [Typed SelectRegionNumber line])
          end
        else
          let '(r, rest', evs) := ask_region regions rest in
          (r, rest', Typed SelectRegionNumber line :: Shown InvalidSelection :: evs)
    | None =>
        let '(r, rest', evs) := ask_region regions rest in
        (r, rest', Typed SelectRegionNumber line :: Shown EnterValidNumber :: evs)
    end.
Proof. reflexivity. Qed.

(** The test of the region loop, in numbers from 1. *)
Lemma region_test (regions : list string) (number : Z) :
  (0 <=? number - 1) && (number - 1 <? Z.of_nat (length regions)) = true
  <-> 1 <= number <= Z.of_nat (length regions).
Proof. rewrite andb_true_iff, Z.leb_le, Z.ltb_lt. lia. Qed.

(** The region loop, by its outcome. *)
Lemma ask_region_result (regions : list string) (lines : list string) :
  match ask_region regions lines with
  | (inr selected_region, rest, _) =>
      exists refused line number,
        lines = refused ++ line :: rest
        /\ Forall (fun l => ~ selects regions l) refused
        /\ int line = Some number
        /\ 1 <= number <= Z.of_nat (length regions)
        /\ regions !! Z.to_nat (number - 1) = Some selected_region
  | (inl e, rest, _) =>
      e = EOFError /\ rest = [] /\ Forall (fun l => ~ selects regions l) lines
  end.
Proof.
  induction lines as [|line lines IH]; [now repeat split|].
  rewrite ask_region_cons.
  assert (Hrefused : ~ selects regions line ->
    match (let '(r, rest', evs) := ask_region regions lines in
           (r, rest', Typed SelectRegionNumber line :: Shown InvalidSelection :: evs)) with
    | (inr selected_region, rest, _) =>
        exists refused line0 number,
          line :: lines = refused ++ line0 :: rest
          /\ Forall (fun l => ~ selects regions l) refused
          /\ int line0 = Some number
          /\ 1 <= number <= Z.of_nat (length regions)
          /\ regions !! Z.to_nat (number - 1) = Some selected_region
    | (inl e, rest, _) =>
        e = EOFError /\ rest = [] /\ Forall (fun l => ~ selects regions l) (line :: lines)
    end).
  { intros Hno. destruct (ask_region regions lines) as [[[e|region] rest] evs].
    - destruct IH as (-> & -> & Hall). auto.
    - destruct IH as (refused & line0 & number & -> & Hall & Hint & Hrange & Hat).
      exists (line :: refused), line0, number. auto 10. }
  destruct (int line) as [number|] eqn:Hint.
  - cbn zeta.
    destruct ((0 <=? number - 1) && (number - 1 <? Z.of_nat (length regions))) eqn:Htest.
    + apply region_test in Htest.
      destruct (regions !! Z.to_nat (number - 1)) as [region|] eqn:Hat.
      * exists [], line, number. auto.
      * apply lookup_ge_None in Hat. lia.
    + apply Hrefused. intros (n & Hn & Hrange). rewrite Hint in Hn. injection Hn as <-.
      apply region_test in Hrange. congruence.
  - assert (Hno : ~ selects regions line) by (intros (n & Hn & _); congruence).
    specialize (Hrefused Hno).
    destruct (ask_region regions lines) as [[[e|region] rest] evs]; exact Hrefused.
Qed.

(** X10.  The region loop.  When it returns a region, the lines before the
    accepted one were each refused ([int] raised, or the number was not
    between 1 and the number of regions), the accepted line reads as a
    number [n] in that range, and the region is the one at position
    [n - 1] of the list.  It never raises [IndexError]: it fails only with
    [EOFError], when every line was refused and the input is used up. *)
Theorem ask_region_outcome (regions : list string) (lines : list string) :
  match ask_region regions lines with
  | (inr selected_region, rest, _) =>
      exists refused line number,
        lines = refused ++ line :: rest
        /\ Forall (fun l => ~ selects regions l) refused
        /\ int line = Some number
        /\ 1 <= number <= Z.of_nat (length regions)
        /\ regions !! Z.to_nat (number - 1) = Some selected_region
  | (inl e, rest, _) =>
      e = EOFError /\ rest = [] /\ Forall (fun l => ~ selects regions l) lines
  end.
Proof. exact (ask_region_result regions lines). Qed.

(** X11.  When the listing returns no region at all, no line can select
    one: the region loop then refuses every line and ends, if the input
    ends, in [EOFError]. *)
Theorem ask_region_without_regions (lines : list string) :
  fst (fst (ask_region [] lines)) = inl EOFError
  /\ snd (fst (ask_region [] lines)) = [].
Proof.
  pose proof (ask_region_result [] lines) as Hout.
  destruct (ask_region [] lines) as [[[e|region] rest] evs]; cbn [fst snd].
  - destruct Hout as (-> & -> & _). auto.
  - destruct Hout as (_ & _ & number & _ & _ & _ & Hrange & _). cbn in Hrange. lia.
Qed.

Lemma ask_dashboard_name_cons (line : string) (rest : list string) :
  ask_dashboard_name (line :: rest) =
    if truthy (strip line) then
      (inr (strip line), rest, [Typed EnterDashboardName line])
    else
      let '(r, rest', evs) := ask_dashboard_name rest in
      (r, rest', Typed EnterDashboardName line :: Shown DashboardNameCannotBeEmpty :: evs).
Proof. reflexivity. Qed.

(** The dashboard name loop, by its outcome. *)
Lemma ask_dashboard_name_result (lines : list string) :
  match ask_dashboard_name lines with
  | (inr dashboard_name, rest, _) =>
      exists blanks line,
        lines = blanks ++ line :: rest
        /\ Forall (fun l => strip l = "") blanks
        /\ dashboard_name = strip line
        /\ dashboard_name <> ""
  | (inl e, rest, _) =>
      e = EOFError /\ rest = [] /\ Forall (fun l => strip l = "") lines
  end.
Proof.
  induction lines as [|line lines IH]; [now repeat split|].
  rewrite ask_dashboard_name_cons. destruct (truthy (strip line)) eqn:Hline.
  - apply truthy_true in Hline. exists [], line. auto.
  - apply truthy_false in Hline.
    destruct (ask_dashboard_name lines) as [[[e|name] rest] evs].
    + destruct IH as (-> & -> & Hall). auto.
    + destruct IH as (blanks & line0 & -> & Hall & -> & Hne).
      exists (line :: blanks), line0. auto.
Qed.

(** X12.  The dashboard name loop returns the stripped form of the first
    line that is not blank, which is therefore not empty; it fails only
    with [EOFError], when every line was blank and the input is used up. *)
Theorem ask_dashboard_name_outcome (lines : list string) :
  match ask_dashboard_name lines with
  | (inr dashboard_name, rest, _) =>
      exists blanks line,
        lines = blanks ++ line :: rest
        /\ Forall (fun l => strip l = "") blanks
        /\ dashboard_name = strip line
        /\ dashboard_name <> ""
  | (inl e, rest, _) =>
      e = EOFError /\ rest = [] /\ Forall (fun l => strip l = "") lines
  end.
Proof. exact (ask_dashboard_name_result lines). Qed.

End FrontEndPrompts.

(** ** The front end: [get_user_inputs] and [main] *)

Section FrontEndRun.

Context {W : Type} `{!Externals W} `{!FrontEnd W}.







End FrontEndRun.

Section FrontEndTheorems.

Context {W : Type} `{!Externals W} `{!FrontEnd W}.


(** The answer to the confirmation question counts as yes exactly when,
    stripped, it is [y] or [Y]. *)
Lemma lower_is_y (answer : string) : lower answer = "y" <-> answer = "y" \/ answer = "Y".
Proof.
  split.
  - destruct answer as [|c [|c' rest]]; cbn; try discriminate.
    intros [= Hc].
    destruct c as [[] [] [] [] [] [] [] []]; vm_compute in Hc; try discriminate Hc; auto.
  - intros [-> | ->]; reflexivity.
Qed.

(** [create_dashboard] returns normally, always. *)
Lemma create_dashboard_returns (self : EBSDashboardGenerator)
    (instance_id dashboard_name : string) (s : state W) :
  fst (create_dashboard self instance_id dashboard_name s) = inr tt.
Proof.
  rewrite create_dashboard_run. cbn zeta.
  destruct (get_volume_info instance_id s) as [[e|[|first others]] s1]; try reflexivity.
  destruct ((print _ ;; get_drive_names _)%script s1) as [[e|drive_names] s2];
    [reflexivity|].
  destruct (fst (for_each _ _ _ _)) as [e|widgets]; [reflexivity|].
  now destruct (cloudwatch_put_dashboard _ _ _).
Qed.

(** [main], spelled out from the point where the inputs are in. *)
Lemma main_run (s : session W) :
  main s =
    match get_user_inputs s with
    | (inl e, s1) =>
        (inr tt, {| ui_world := ui_world s1; ui_stdin := ui_stdin s1;
                    ui_trace := ui_trace s1 ++ [Shown (UncaughtError e)] |})
    | (inr (instance_id, selected_region, dashboard_name), s1) =>
        let summary := Shown (Summary instance_id selected_region dashboard_name) in
        match ui_stdin s1 with
        | [] =>
            (inr tt, {| ui_world := ui_world s1; ui_stdin := [];
                        ui_trace := ui_trace s1 ++ [summary; InputEnded ProceedWithSettings;
                                                    Shown (UncaughtError EOFError)] |})
        | answer :: rest =>
            let asked := Typed ProceedWithSettings answer in
            if negb (String.eqb (lower (strip answer)) "y") then
              (inr tt, {| ui_world := ui_world s1; ui_stdin := rest;
                          ui_trace := ui_trace s1 ++ [summary; asked;
                                                      Shown OperationCancelled] |})
            else
              match boto3_clients selected_region (ui_world s1) with
              | (inl e, w) =>
                  (inr tt,
                   {| ui_world := w; ui_stdin := rest;
                      ui_trace := ui_trace s1 ++
                        [summary; asked; Shown InitializingClients;
                         ClientsCreated selected_region (inl e);
                         Shown (UncaughtError e)] |})
              | (inr _, w) =>
                  core (create_dashboard {| region := selected_region |}
                                         instance_id dashboard_name)
                    {| ui_world := w; ui_stdin := rest;
                       ui_trace := ui_trace s1 ++
                         [summary; asked; Shown InitializingClients;
                          ClientsCreated selected_region (inr tt)] |}
              end
        end
    end.
Proof.
  unfold main, ui_try_except. unfold ui_bind at 1.
  destruct (get_user_inputs s) as [[e|[[instance_id selected_region] dashboard_name]] s1];
    [reflexivity|].
  unfold ui_bind at 1, ui_print at 1. unfold ui_bind at 1, ui_input.
  cbn [ui_world ui_stdin ui_trace].
  destruct (ui_stdin s1) as [|answer rest].
  - unfold ui_print. cbn. rewrite <- ?app_assoc. reflexivity.
  - cbn zeta. destruct (negb (String.eqb (lower (strip answer)) "y")).
    + unfold ui_print. cbn. rewrite <- ?app_assoc. reflexivity.
    + unfold init, ui_bind, ui_print, create_clients, ui_ret.
      cbn [ui_world ui_stdin ui_trace].
      destruct (boto3_clients selected_region (ui_world s1)) as [[e|[]] w].
      * cbn. rewrite <- ?app_assoc. reflexivity.
      * unfold core. cbn [ui_world ui_stdin ui_trace].
        pose proof (create_dashboard_returns {| region := selected_region |}
                      instance_id dashboard_name
                      {| world := w; stdin := rest; trace := [] |}) as Hret.
        destruct (create_dashboard _ _ _ _) as [r s2]. cbn [fst] in Hret. subst r.
        cbn. rewrite <- ?app_assoc. reflexivity.
Qed.


(** X15.  Any answer to the confirmation question that is not [y] or [Y]
    after stripping cancels: [main] then only prints the summary and the
    cancellation notice.  No client is built, no volume is looked up and no
    dashboard is written. *)
Theorem main_cancelled (s s1 : session W) (instance_id selected_region dashboard_name : string)
    (answer : string) (rest : list string) :
  get_user_inputs s = (inr (instance_id, selected_region, dashboard_name), s1) ->
  ui_stdin s1 = answer :: rest ->
  strip answer <> "y" ->
  strip answer <> "Y" ->
  main s =
    (inr tt,
     {| ui_world := ui_world s1; ui_stdin := rest;
        ui_trace := ui_trace s1 ++
          [Shown (Summary instance_id selected_region dashboard_name);
           Typed ProceedWithSettings answer; Shown OperationCancelled] |}).
Proof.
  intros Hinputs Hstdin Hy HY. rewrite main_run, Hinputs, Hstdin. cbn zeta.
  destruct (String.eqb (lower (strip answer)) "y") eqn:Hconfirm; [|reflexivity].
  apply String.eqb_eq, lower_is_y in Hconfirm. tauto.
Qed.

(** X16.  After [y] or [Y], and once the clients are built, [main] runs
    [create_dashboard] for the instance ID and dashboard name it collected,
    with a generator for the selected region, on the input that is left. *)
Theorem main_confirmed (s s1 : session W) (instance_id selected_region dashboard_name : string)
    (answer : string) (rest : list string) (w : W) :
  get_user_inputs s = (inr (instance_id, selected_region, dashboard_name), s1) ->
  ui_stdin s1 = answer :: rest ->
  strip answer = "y" \/ strip answer = "Y" ->
  boto3_clients selected_region (ui_world s1) = (inr tt, w) ->
  main s =
    core (create_dashboard {| region := selected_region |} instance_id dashboard_name)
      {| ui_world := w; ui_stdin := rest;
         ui_trace := ui_trace s1 ++
           [Shown (Summary instance_id selected_region dashboard_name);
            Typed ProceedWithSettings answer; Shown InitializingClients;
            ClientsCreated selected_region (inr tt)] |}.
Proof.
  intros Hinputs Hstdin Hyes Hclients. rewrite main_run, Hinputs, Hstdin. cbn zeta.
  apply lower_is_y, String.eqb_eq in Hyes. rewrite Hyes, Hclients. reflexivity.
Qed.

End FrontEndTheorems.

Lemma ask_region_outcome_witness :
  exists refused line number,
    ["x"; "9"; "2"; "next"] = refused ++ line :: ["next"]
    /\ int (W := SimulatedCloud.cloud) line = Some number
    /\ 1 <= number <= 2.
Proof.
  pose proof (ask_region_outcome (W := SimulatedCloud.cloud)
                ["eu-west-1"; "us-east-1"] ["x"; "9"; "2"; "next"]) as Hout.
  destruct (ask_region ["eu-west-1"; "us-east-1"] ["x"; "9"; "2"; "next"])
    as [[[e|selected_region] rest] evs] eqn:Hrun;
    vm_compute in Hrun; [discriminate Hrun|].
  injection Hrun as <- <- <-.
  destruct Hout as (refused & line & number & Hlines & _ & Hint & Hrange & _).
  exists refused, line, number. split; [exact Hlines|]. split; [exact Hint|exact Hrange].
Defined.

Lemma ask_dashboard_name_outcome_witness :
  exists blanks line,
    [" "; " volumes "; "next"] = blanks ++ line :: ["next"]
    /\ "volumes" = strip line.
Proof.
  pose proof (ask_dashboard_name_outcome [" "; " volumes "; "next"]) as Hout.
  destruct (ask_dashboard_name [" "; " volumes "; "next"])
    as [[[e|dashboard_name] rest] evs] eqn:Hrun;
    vm_compute in Hrun; [discriminate Hrun|].
  injection Hrun as <- <- <-.
  destruct Hout as (blanks & line & Hlines & _ & Hname & _).
  exists blanks, line. split; [exact Hlines|exact Hname].
Defined.


Lemma main_cancelled_witness :
  let s := SimulatedFrontEnd.start (SimulatedCloud.cloud_of [SimulatedCloud.vol2])
             ["2"; "i-0abc"; "volumes"; " no "; "unread"] in
  ui_stdin (snd (main s)) = ["unread"]
  /\ core_events (ui_events_since s (snd (main s))) = [Entered EnterInstanceId "i-0abc"].
Proof.
  intros s.
  rewrite (main_cancelled (W := SimulatedCloud.cloud) s (snd (get_user_inputs s))
             "i-0abc" "us-east-1" "volumes" " no " ["unread"]).
  - split; vm_compute; reflexivity.
  - vm_compute. reflexivity.
  - reflexivity.
  - vm_compute. discriminate.
  - vm_compute. discriminate.
Defined.

Lemma main_confirmed_witness :
  let s := SimulatedFrontEnd.start (SimulatedCloud.cloud_of [SimulatedCloud.vol2])
             ["2"; "i-0abc"; "volumes"; " Y "] in
  List.map fst (SimulatedCloud.dashboards (ui_world (snd (main s)))) = ["volumes"].
Proof.
  intros s.
  rewrite (main_confirmed (W := SimulatedCloud.cloud) s (snd (get_user_inputs s))
             "i-0abc" "us-east-1" "volumes" " Y " []
             (SimulatedCloud.cloud_of [SimulatedCloud.vol2])).
  - vm_compute. reflexivity.
  - vm_compute. reflexivity.
  - reflexivity.
  - right. reflexivity.
  - reflexivity.
Defined.

